(** * sk-tasks: the task store of the to-do application

    A shallow embedding of the task handling of the three components of
    [app/(tabs)/tasks.tsx] (the Tasks screen, the Home screen and the
    add-task modal), followed by the properties of the specification that
    were checked against it.

    Conventions of the embedding:
    - a JavaScript string held by a component is a [string]: a sequence
      of code units, here restricted to the 8-bit range U+0000..U+00FF,
      on which [trim] is written out as ECMAScript defines it for those
      code units;
    - [String.prototype.toLowerCase] belongs to the runtime and acts on
      UTF-16 text, which it can lengthen: it is taken as an interface
      ([Utf16.Casing]) on sequences of 16-bit code units, into which the
      strings of the components embed ([Utf16.widen]); what it does on text
      of the 8-bit range is the law [Utf16.CasingLaws], and a reference
      instance is given in [RefCasing];
    - a component is a record of its [useState] cells; an event handler is
      a computation in the monad [Eff], which threads the component state
      and the device ([World]: AsyncStorage, the console, the dialogs) and
      may complete abruptly with a thrown error, so that [try]/[catch] is a
      combinator;
    - what the environment decides (whether a storage promise resolves or
      rejects, the clock reading, the answer of the user to a prompt) is an
      argument of the handler;
    - a handler runs to its end, the promises it starts included, before
      the next event is handled: one read-modify-write in flight at a time;
    - [JSON.stringify] and [JSON.parse] belong to the runtime and are taken
      as an interface ([Json]); the laws used of them are stated in
      [JsonLaws], and a reference codec that satisfies them is given in
      [RefJson]. *)

From Stdlib Require Import Ascii NArith ZArith.
From Stdlib Require String.
From Stdlib Require Import Floats.PrimFloat Numbers.Cyclic.Int63.Uint63.
From stdpp Require Import base option list strings pretty gmap.

(** ** JavaScript strings *)

Module JsString.

(** WhiteSpace and LineTerminator code units below U+0100: TAB, LF, VT,
    FF, CR, SP and NBSP. *)
Definition isWhiteSpace (c : ascii) : bool :=
  let n := N_of_ascii c in
  ((9 <=? n) && (n <=? 13) || (n =? 32) || (n =? 160))%N.

Fixpoint trimStart (s : string) : string :=
  match s with
  | String c s' => if isWhiteSpace c then trimStart s' else s
  | EmptyString => EmptyString
  end.

Fixpoint trimEnd (s : string) : string :=
  match s with
  | String c s' =>
      match trimEnd s' with
      | EmptyString => if isWhiteSpace c then EmptyString else String c EmptyString
      | r => String c r
      end
  | EmptyString => EmptyString
  end.

(** [String.prototype.trim] *)
Definition trim (s : string) : string := trimEnd (trimStart s).

End JsString.

(** ** UTF-16 text *)

Module Utf16.

(** A string as the runtime has it: a sequence of 16-bit code units. *)
Definition text := list N.

(** A string of the 8-bit range as such a sequence. *)
Fixpoint widen (s : string) : text :=
  match s with
  | String c s' => N_of_ascii c :: widen s'
  | EmptyString => []
  end.

(** [String.prototype.toLowerCase] *)
Class Casing := { toLowerCase : text → text }.

(** [s.startsWith(search)] *)
Fixpoint startsWith (s search : text) {struct search} : bool :=
  match search, s with
  | [], _ => true
  | c :: search', d :: s' => (d =? c)%N && startsWith s' search'
  | _ :: _, [] => false
  end.

(** [s.includes(search)]: [search] occurs in [s] at some position. *)
Fixpoint includes (s search : text) : bool :=
  startsWith s search ||
  match s with
  | _ :: s' => includes s' search
  | [] => false
  end.

(** Text of the 8-bit range. *)
Definition narrow (s : text) : Prop := Forall (λ u, (u < 256)%N) s.

(** The lower-case mapping of a code unit of the 8-bit range: A-Z, and
    the capital letters of U+00C0..U+00DE (all but the multiplication
    sign U+00D7), go thirty-two places up. *)
Definition lowerUnit (u : N) : N :=
  if ((65 <=? u) && (u <=? 90) || (192 <=? u) && (u <=? 222) && negb (u =? 215))%N
  then (u + 32)%N else u.

(** The runtime lower-cases text of the 8-bit range unit by unit. *)
Class CasingLaws `{Casing} : Prop := {
  toLowerCase_narrow s : narrow s → toLowerCase s = lowerUnit <$> s;
}.

End Utf16.

(** ** Tasks *)

Record Task := mkTask {
  id : string;
  title : string;
  completed : bool;
  category : string;
  date : string;
}.

Global Instance Task_eq_dec : EqDecision Task.
Proof. solve_decision. Defined.

(** ** The device *)

(** Errors that reach a [catch]: a rejected storage promise, and the
    [SyntaxError] of [JSON.parse]. *)
Inductive js_error := StorageError | SyntaxError.

(** How a storage promise settles. *)
Inductive settle := Resolves | Rejects.

(** [Platform.OS] *)
Inductive os := web | ios | android | windows | macos.

Global Instance os_eq_dec : EqDecision os.
Proof. solve_decision. Defined.

(** Dialogs put on screen. *)
Inductive dialog :=
| window_alert (message : string)
| window_confirm (message : string)
| Alert_alert (heading message : string) (buttons : list string).

Record World := mkWorld {
  platform : os;
  storage : gmap string string;          (* AsyncStorage *)
  console : list (string * js_error);    (* console.error, oldest first *)
  dialogs : list dialog;                 (* oldest first *)
}.

(** The runtime's JSON codec, at the type the application uses it at: the
    blob is written by [JSON.stringify] of a [Task[]] only, and what
    [JSON.parse] returns is given to [setTasks] at that type.
    [JSON_parse s = None] stands for a thrown [SyntaxError]. *)
Class Json := {
  JSON_stringify : list Task → string;
  JSON_parse : string → option (list Task);
}.

(** The laws of the codec the development relies on: a stringified array
    parses back to itself, and the text of an array is never empty (it
    has its brackets at least). *)
Class JsonLaws `{Json} : Prop := {
  JSON_parse_stringify : ∀ ts, JSON_parse (JSON_stringify ts) = Some ts;
  JSON_stringify_nonempty : ∀ ts, JSON_stringify ts ≠ "";
}.

(** ** Handlers as computations *)

Inductive completion (A : Type) :=
| Normal (a : A)
| Throw (e : js_error).
Arguments Normal {A} a.
Arguments Throw {A} e.

Definition Eff (S A : Type) : Type := S * World → completion A * (S * World).

Global Instance Eff_ret {S} : MRet (Eff S) := λ A a σ, (Normal a, σ).

Global Instance Eff_bind {S} : MBind (Eff S) := λ A B k m σ,
  match m σ with
  | (Normal a, σ') => k a σ'
  | (Throw e, σ') => (Throw e, σ')
  end.

Section Eff.
Context {S : Type}.

Definition throw {A} (e : js_error) : Eff S A := λ σ, (Throw e, σ).

(** [try { body } catch (e) { handler }] *)
Definition try_catch {A} (body : Eff S A) (handler : js_error → Eff S A) : Eff S A :=
  λ σ, match body σ with
       | (Normal a, σ') => (Normal a, σ')
       | (Throw e, σ') => handler e σ'
       end.

(** The state cells of the component, as of the current render. *)
Definition getState : Eff S S := λ σ, (Normal σ.1, σ).

(** A [useState] setter. *)
Definition setState (f : S → S) : Eff S unit := λ σ, (Normal tt, (f σ.1, σ.2)).

Definition getWorld : Eff S World := λ σ, (Normal σ.2, σ).

Definition setWorld (f : World → World) : Eff S unit := λ σ, (Normal tt, (σ.1, f σ.2)).

(** [await AsyncStorage.getItem(key)]: [null] is [None]. *)
Definition AsyncStorage_getItem (p : settle) (key : string) : Eff S (option string) :=
  match p with
  | Resolves => w ← getWorld; mret (storage w !! key)
  | Rejects => throw StorageError
  end.

(** [await AsyncStorage.setItem(key, value)]; a rejected write leaves the
    store as it was. *)
Definition AsyncStorage_setItem (p : settle) (key value : string) : Eff S unit :=
  match p with
  | Resolves =>
      setWorld (λ w, mkWorld (platform w) (<[key := value]> (storage w)) (console w) (dialogs w))
  | Rejects => throw StorageError
  end.

Definition console_error (message : string) (e : js_error) : Eff S unit :=
  setWorld (λ w, mkWorld (platform w) (storage w) (console w ++ [(message, e)]) (dialogs w)).

Definition show (d : dialog) : Eff S unit :=
  setWorld (λ w, mkWorld (platform w) (storage w) (console w) (dialogs w ++ [d])).

Definition Platform_OS : Eff S os := w ← getWorld; mret (platform w).

(** [JSON.parse(text)] *)
Definition parse `{Json} (text : string) : Eff S (list Task) :=
  match JSON_parse text with
  | Some ts => mret ts
  | None => throw SyntaxError
  end.

End Eff.

(** Truthiness of a [string | null]: [null] and the empty string are falsy. *)
Definition truthy (v : option string) : option string :=
  match v with
  | Some s => if bool_decide (s = "") then None else Some s
  | None => None
  end.

(** The value a call evaluates to, for the handlers whose result the
    specification speaks of. *)
Inductive js_value :=
| undefined
| task_value (t : Task).

(** The readings of the clock one submission takes: [Date.now()] in
    milliseconds and [new Date().toLocaleDateString()]. *)
Record Clock := mkClock {
  now : Z;
  toLocaleDateString : string;
}.

(** [Date.now().toString()] *)
Definition toString (n : Z) : string := pretty n.

(** The object literal of both [handleAddTask]. *)
Definition newTask (clock : Clock) (title category : string) : Task :=
  {| id := toString (now clock);
     title := JsString.trim title;
     completed := false;
     category := category;
     date := toLocaleDateString clock |}.

(** [task.id === id ? { ...task, completed: !task.completed } : task] *)
Definition toggled (id0 : string) (task : Task) : Task :=
  if bool_decide (id task = id0)
  then mkTask (id task) (title task) (negb (completed task)) (category task) (date task)
  else task.

(** ** The Tasks screen *)

Module TasksScreen.

Record State := mkState {
  tasks : list Task;
  selectedCategory : string;
  isModalVisible : bool;
}.

Definition CATEGORIES : list string := ["All"; "Work"; "Personal"; "Shopping"; "Health"].

Definition initial : State := mkState [] "All" false.

Definition setTasks (ts : list Task) : Eff State unit :=
  setState (λ s, mkState ts (selectedCategory s) (isModalVisible s)).

Definition setSelectedCategory (c : string) : Eff State unit :=
  setState (λ s, mkState (tasks s) c (isModalVisible s)).

Definition setIsModalVisible (b : bool) : Eff State unit :=
  setState (λ s, mkState (tasks s) (selectedCategory s) b).

Section Handlers.
Context `{Json}.

Definition loadTasks (rd : settle) : Eff State unit :=
  try_catch
    (storedTasks ← AsyncStorage_getItem rd "@sk_tasks";
     match truthy storedTasks with
     | Some text => ts ← parse text; setTasks ts
     | None => mret tt
     end)
    (λ e, console_error "Failed to load tasks" e).

Definition saveTasks (wr : settle) (currentTasks : list Task) : Eff State unit :=
  try_catch
    (AsyncStorage_setItem wr "@sk_tasks" (JSON_stringify currentTasks);;
     setTasks currentTasks)
    (λ e, console_error "Failed to save tasks" e).

Definition handleAddTask (clock : Clock) (wr : settle) (title category : string)
  : Eff State js_value :=
  s ← getState;
  let updatedTasks := newTask clock title category :: tasks s in
  saveTasks wr updatedTasks;;
  mret undefined.

Definition toggleTask (wr : settle) (id0 : string) : Eff State unit :=
  s ← getState;
  let updatedTasks := toggled id0 <$> tasks s in
  saveTasks wr updatedTasks.

(** [answer] is what the user does with the prompt: [true] for OK
    (web) or the Delete button, [false] for Cancel or dismissal. *)
Definition deleteTask (answer : bool) (wr : settle) (id0 : string) : Eff State unit :=
  s ← getState;
  p ← Platform_OS;
  if bool_decide (p = web) then
    show (window_confirm "Are you sure you want to delete this task?");;
    if answer then
      let updatedTasks := filter (λ task, id task ≠ id0) (tasks s) in
      saveTasks wr updatedTasks
    else mret tt
  else
    show (Alert_alert "Delete Task" "Are you sure you want to delete this task?"
                      ["Cancel"; "Delete"]);;
    if answer then
      let updatedTasks := filter (λ task, id task ≠ id0) (tasks s) in
      saveTasks wr updatedTasks
    else mret tt.

End Handlers.

Definition filteredTasks (s : State) : list Task :=
  if bool_decide (selectedCategory s = "All") then tasks s
  else filter (λ task, category task = selectedCategory s) (tasks s).

Definition activeCount (s : State) : nat :=
  length (filter (λ t, completed t = false) (tasks s)).

End TasksScreen.

(** ** The Home screen *)

Module Category.
Record t := mk { id : string; name : string; count : nat }.
End Category.

(** A JavaScript number holding a length or a count (array lengths stay
    below 2^32, well inside the 63 bits of the conversion). *)
Definition number (n : nat) : float := PrimFloat.of_uint63 (Uint63.of_Z (Z.of_nat n)).

Module HomeScreen.

Definition CATEGORY_NAMES : list string := ["Work"; "Personal"; "Shopping"; "Health"].

Record State := mkState {
  tasks : list Task;
  categories : list Category.t;
  searchQuery : string;
  isModalVisible : bool;
}.

Definition initial : State := mkState [] [] "" false.

Definition setTasks (ts : list Task) : Eff State unit :=
  setState (λ s, mkState ts (categories s) (searchQuery s) (isModalVisible s)).

Definition setCategories (cs : list Category.t) : Eff State unit :=
  setState (λ s, mkState (tasks s) cs (searchQuery s) (isModalVisible s)).

Definition setSearchQuery (q : string) : Eff State unit :=
  setState (λ s, mkState (tasks s) (categories s) q (isModalVisible s)).

Definition setIsModalVisible (b : bool) : Eff State unit :=
  setState (λ s, mkState (tasks s) (categories s) (searchQuery s) b).

(** The per-category counts of tasks not yet completed. *)
Definition categoryCounts (ts : list Task) : list Category.t :=
  imap (λ index name,
          Category.mk (pretty index) name
            (length (filter (λ t, category t = name ∧ completed t = false) ts)))
       CATEGORY_NAMES.

Section Handlers.
Context `{Json}.

Definition loadData (rd : settle) : Eff State unit :=
  try_catch
    (storedTasks ← AsyncStorage_getItem rd "@sk_tasks";
     loadedTasks ← match truthy storedTasks with
                   | Some text => parse text
                   | None => mret []
                   end;
     setTasks loadedTasks;;
     setCategories (categoryCounts loadedTasks))
    (λ e, console_error "Failed to load tasks" e).

Definition handleAddTask (clock : Clock) (wr : settle) (title category : string)
  : Eff State js_value :=
  s ← getState;
  let updatedTasks := newTask clock title category :: tasks s in
  setTasks updatedTasks;;
  let updatedCategories :=
    (λ cat, if bool_decide (Category.name cat = category)
            then Category.mk (Category.id cat) (Category.name cat) (Category.count cat + 1)
            else cat) <$> categories s in
  setCategories updatedCategories;;
  try_catch
    (AsyncStorage_setItem wr "@sk_tasks" (JSON_stringify updatedTasks))
    (λ e, console_error "Failed to save task" e);;
  mret undefined.

Definition toggleTask (wr : settle) (id0 : string) : Eff State unit :=
  s ← getState;
  let updatedTasks := toggled id0 <$> tasks s in
  setTasks updatedTasks;;
  setCategories (categoryCounts updatedTasks);;
  try_catch
    (AsyncStorage_setItem wr "@sk_tasks" (JSON_stringify updatedTasks))
    (λ e, console_error "Failed to save task" e).

End Handlers.

Definition completedCount (s : State) : nat :=
  length (filter (λ t, completed t = true) (tasks s)).

Definition totalCount (s : State) : nat := length (tasks s).

(** [totalCount > 0 ? (completedCount / totalCount) * 100 : 0], in the
    double-precision arithmetic of JavaScript numbers. *)
Definition progress (s : State) : float :=
  if bool_decide (0 < totalCount s)
  then (number (completedCount s) / number (totalCount s) * 100)%float
  else 0%float.

Definition displayedTasks `{Utf16.Casing} (s : State) : list Task :=
  if bool_decide (0 < String.length (searchQuery s))
  then filter (λ t, Utf16.includes (Utf16.toLowerCase (Utf16.widen (title t)))
                                   (Utf16.toLowerCase (Utf16.widen (searchQuery s))) = true)
              (tasks s)
  else take 5 (tasks s).

End HomeScreen.

(** ** The search view on any text *)

(** The tasks and the search view of the Home screen once more, the text
    of a task and of the search box being any UTF-16 text: what
    [HomeScreen.displayedTasks] is on text of the 8-bit range. *)

Module Wide.

Record Task := mkTask {
  id : Utf16.text;
  title : Utf16.text;
  completed : bool;
  category : Utf16.text;
  date : Utf16.text;
}.

Definition displayedTasks `{Utf16.Casing} (searchQuery : Utf16.text) (tasks : list Task)
  : list Task :=
  if bool_decide (0 < length searchQuery)
  then filter (λ t, Utf16.includes (Utf16.toLowerCase (title t))
                                   (Utf16.toLowerCase searchQuery) = true)
              tasks
  else take 5 tasks.

End Wide.

Definition widenTask (t : Task) : Wide.Task :=
  Wide.mkTask (Utf16.widen (id t)) (Utf16.widen (title t)) (completed t)
    (Utf16.widen (category t)) (Utf16.widen (date t)).

(** ** The add-task modal *)

Module AddTaskModal.

Definition CATEGORIES : list string := ["Work"; "Personal"; "Shopping"; "Health"].

Record State := mkState {
  newTaskTitle : string;
  newTaskCategory : string;
}.

Definition initial : State := mkState "" "Work".

(** The properties the parent screen passes, over the parent's state [P]. *)
Record Props (P : Type) := mkProps {
  visible : bool;
  onClose : Eff P unit;
  onAddTask : string → string → Eff P js_value;
}.
Arguments visible {P} _.
Arguments onClose {P} _.
Arguments onAddTask {P} _ _ _.

(** A handler of the parent run from the modal: it acts on the parent's
    cells and on the device, not on the modal's. *)
Definition parent {P A} (m : Eff P A) : Eff (State * P) A :=
  λ σ, match m (σ.1.2, σ.2) with
       | (r, (p', w')) => (r, ((σ.1.1, p'), w'))
       end.

Definition setNewTaskTitle {P} (v : string) : Eff (State * P) unit :=
  setState (λ s, (mkState v (newTaskCategory s.1), s.2)).

Definition setNewTaskCategory {P} (v : string) : Eff (State * P) unit :=
  setState (λ s, (mkState (newTaskTitle s.1) v, s.2)).

Definition handleAddTask {P} (props : Props P) : Eff (State * P) unit :=
  s ← getState;
  if bool_decide (String.length (JsString.trim (newTaskTitle s.1)) = 0) then
    p ← Platform_OS;
    if bool_decide (p = web)
    then show (window_alert "Please enter a task title")
    else show (Alert_alert "Error" "Please enter a task title" [])
  else
    parent (onAddTask props (newTaskTitle s.1) (newTaskCategory s.1));;
    setNewTaskTitle "";;
    parent (onClose props).

Definition handleClose {P} (props : Props P) : Eff (State * P) unit :=
  setNewTaskTitle "";;
  parent (onClose props).

End AddTaskModal.

(** ** A reference JSON codec

    [stringify] writes an array of tasks as [JSON.stringify] does (members
    in the order of the object literal, no white space, strings quoted by
    QuoteJSONString); [parse] reads that text back, and fails on anything
    else. *)

Module RefJson.

Definition dquote : ascii := ascii_of_N 34.
Definition backslash : ascii := ascii_of_N 92.

Definition hexDigit (n : N) : ascii :=
  if (n <? 10)%N then ascii_of_N (48 + n) else ascii_of_N (87 + n).

(** QuoteJSONString, one code unit. *)
Definition quoteCode (c : ascii) : string :=
  let n := N_of_ascii c in
  if (n =? 8)%N then String backslash "b"
  else if (n =? 9)%N then String backslash "t"
  else if (n =? 10)%N then String backslash "n"
  else if (n =? 12)%N then String backslash "f"
  else if (n =? 13)%N then String backslash "r"
  else if (n =? 34)%N then String backslash (String dquote "")
  else if (n =? 92)%N then String backslash (String backslash "")
  else if (n <? 32)%N then
    String backslash
      (String "u" (String "0" (String "0"
         (String (hexDigit (n / 16)) (String (hexDigit (n mod 16)) "")))))
  else String c "".

Fixpoint quoteCodes (s : string) : string :=
  match s with
  | String c s' => quoteCode c +:+ quoteCodes s'
  | EmptyString => EmptyString
  end.

Definition quoteJSONString (s : string) : string :=
  String dquote (quoteCodes s +:+ String dquote "").

Definition member (key value : string) : string :=
  quoteJSONString key +:+ ":" +:+ value.

Definition stringifyBool (b : bool) : string := if b then "true" else "false".

Definition stringifyTask (t : Task) : string :=
  "{" +:+ member "id" (quoteJSONString (id t))
  +:+ "," +:+ member "title" (quoteJSONString (title t))
  +:+ "," +:+ member "completed" (stringifyBool (completed t))
  +:+ "," +:+ member "category" (quoteJSONString (category t))
  +:+ "," +:+ member "date" (quoteJSONString (date t))
  +:+ "}".

Fixpoint stringifyElements (t : Task) (ts : list Task) : string :=
  match ts with
  | [] => stringifyTask t +:+ "]"
  | t' :: ts' => stringifyTask t +:+ "," +:+ stringifyElements t' ts'
  end.

Definition stringify (ts : list Task) : string :=
  match ts with
  | [] => "[]"
  | t :: ts' => "[" +:+ stringifyElements t ts'
  end.

(** Reading. *)

Definition hexValue (c : ascii) : option N :=
  let n := N_of_ascii c in
  if ((48 <=? n) && (n <=? 57))%N then Some (n - 48)%N
  else if ((97 <=? n) && (n <=? 102))%N then Some (n - 87)%N
  else if ((65 <=? n) && (n <=? 70))%N then Some (n - 55)%N
  else None.

(** The code unit a four-digit unicode escape denotes, when it is below
    U+0100. *)
Definition unicodeEscape (a b c d : ascii) : option ascii :=
  a' ← hexValue a; b' ← hexValue b; c' ← hexValue c; d' ← hexValue d;
  if bool_decide (a' = 0%N ∧ b' = 0%N) then Some (ascii_of_N (16 * c' + d')) else None.

Definition simpleEscape (e : ascii) : option ascii :=
  let n := N_of_ascii e in
  if (n =? 34)%N then Some dquote
  else if (n =? 92)%N then Some backslash
  else if (n =? 47)%N then Some "/"%char
  else if (n =? 98)%N then Some (ascii_of_N 8)
  else if (n =? 102)%N then Some (ascii_of_N 12)
  else if (n =? 110)%N then Some (ascii_of_N 10)
  else if (n =? 114)%N then Some (ascii_of_N 13)
  else if (n =? 116)%N then Some (ascii_of_N 9)
  else None.

(** The characters of a string up to its closing quote, and the text
    after it. *)
Fixpoint parseChars (s : string) : option (string * string) :=
  match s with
  | EmptyString => None
  | String c rest =>
      if Ascii.eqb c dquote then Some (EmptyString, rest)
      else if Ascii.eqb c backslash then
        match rest with
        | String e rest1 =>
            if Ascii.eqb e "u" then
              match rest1 with
              | String h1 (String h2 (String h3 (String h4 rest2))) =>
                  match unicodeEscape h1 h2 h3 h4, parseChars rest2 with
                  | Some u, Some (v, r) => Some (String u v, r)
                  | _, _ => None
                  end
              | _ => None
              end
            else
              match simpleEscape e, parseChars rest1 with
              | Some u, Some (v, r) => Some (String u v, r)
              | _, _ => None
              end
        | EmptyString => None
        end
      else if (N_of_ascii c <? 32)%N then None
      else
        match parseChars rest with
        | Some (v, r) => Some (String c v, r)
        | None => None
        end
  end.

Definition parseString (s : string) : option (string * string) :=
  match s with
  | String c rest => if Ascii.eqb c dquote then parseChars rest else None
  | EmptyString => None
  end.

(** [expect lit s]: the text after the literal [lit] at the start of [s]. *)
Fixpoint expect (lit s : string) : option string :=
  match lit, s with
  | EmptyString, _ => Some s
  | String c lit', String d s' => if Ascii.eqb c d then expect lit' s' else None
  | String _ _, EmptyString => None
  end.

Definition parseBool (s : string) : option (bool * string) :=
  match expect "true" s with
  | Some r => Some (true, r)
  | None => match expect "false" s with
            | Some r => Some (false, r)
            | None => None
            end
  end.

Definition parseKey (key s : string) : option string :=
  expect (quoteJSONString key +:+ ":") s.

Definition parseTask (s : string) : option (Task * string) :=
  s ← expect "{" s;
  s ← parseKey "id" s; '(i, s) ← parseString s;
  s ← expect "," s;
  s ← parseKey "title" s; '(t, s) ← parseString s;
  s ← expect "," s;
  s ← parseKey "completed" s; '(c, s) ← parseBool s;
  s ← expect "," s;
  s ← parseKey "category" s; '(g, s) ← parseString s;
  s ← expect "," s;
  s ← parseKey "date" s; '(d, s) ← parseString s;
  s ← expect "}" s;
  Some (mkTask i t c g d, s).

Fixpoint parseElements (fuel : nat) (s : string) : option (list Task) :=
  match fuel with
  | 0 => None
  | S fuel' =>
      match parseTask s with
      | Some (t, String c rest) =>
          if Ascii.eqb c "]" then
            match rest with EmptyString => Some [t] | _ => None end
          else if Ascii.eqb c "," then
            ts ← parseElements fuel' rest; Some (t :: ts)
          else None
      | _ => None
      end
  end.

Definition parse (s : string) : option (list Task) :=
  match s with
  | String c rest =>
      if Ascii.eqb c "[" then
        match rest with
        | String d EmptyString => if Ascii.eqb d "]" then Some [] else None
        | _ => parseElements (String.length rest) rest
        end
      else None
  | EmptyString => None
  end.

Definition json : Json := {| JSON_stringify := stringify; JSON_parse := parse |}.

End RefJson.

(** ** A reference lower-casing *)

(** The lower-casing of the runtime written out for a repertoire: the code
    units of the 8-bit range; the Greek alphabet, U+0391..U+03CE, whose
    capital sigma becomes the final sigma U+03C2 after a letter at the end
    of a word and the sigma U+03C3 elsewhere; and U+0130, the capital I
    with a dot above, which becomes two code units, i and the combining
    dot above U+0307. Code units outside the repertoire are left as they
    are, and are not counted as letters around a sigma. *)

Module RefCasing.

Definition isLetter (u : N) : bool :=
  ((65 <=? u) && (u <=? 90) || (97 <=? u) && (u <=? 122)
   || (u =? 170) || (u =? 181) || (u =? 186)
   || (192 <=? u) && (u <=? 255) && negb (u =? 215) && negb (u =? 247)
   || (u =? 304)
   || (913 <=? u) && (u <=? 974) && negb (u =? 930))%N.

Definition lowerUnits (u : N) : list N :=
  if (u <? 256)%N then [Utf16.lowerUnit u]
  else if (u =? 304)%N then [105; 775]%N
  else if ((913 <=? u) && (u <=? 939) && negb (u =? 930))%N then [(u + 32)%N]
  else [u].

(** [before]: the code unit before [s] is a letter. *)
Fixpoint lower (before : bool) (s : Utf16.text) : Utf16.text :=
  match s with
  | [] => []
  | u :: s' =>
      (if (u =? 931)%N
       then [if before && negb (from_option isLetter false (head s')) then 962 else 963]%N
       else lowerUnits u)
      ++ lower (isLetter u) s'
  end.

Definition toLowerCase (s : Utf16.text) : Utf16.text := lower false s.

Definition casing : Utf16.Casing := {| Utf16.toLowerCase := toLowerCase |}.

End RefCasing.

(** ** Vocabulary of the properties *)

(** The persisted blob: the item of the one storage key. *)
Definition blob (w : World) : option string := storage w !! "@sk_tasks".

(** The device after one more line on the console. *)
Definition logged (message : string) (e : js_error) (w : World) : World :=
  mkWorld (platform w) (storage w) (console w ++ [(message, e)]) (dialogs w).

(** The device after the blob has been overwritten. *)
Definition written (text : string) (w : World) : World :=
  mkWorld (platform w) (<["@sk_tasks" := text]> (storage w)) (console w) (dialogs w).

(** The device after one more dialog. *)
Definition shown (d : dialog) (w : World) : World :=
  mkWorld (platform w) (storage w) (console w) (dialogs w ++ [d]).

(** The blob is there and [JSON.parse] throws on it. *)
Definition corrupt `{Json} (w : World) : Prop :=
  ∃ text, truthy (blob w) = Some text ∧ JSON_parse text = None.

(** One submission of the form: the clock readings it takes, how its
    storage write settles, and what was entered. *)
Record submission := mkSubmission {
  readings : Clock;
  settles : settle;
  entered : string;
  chosen : string;
}.

(** A series of submissions, each handled to its end before the next. *)
Definition submitAll {S} (add : Clock → settle → string → string → Eff S js_value)
    (subs : list submission) (σ : S * World) : S * World :=
  foldl (λ σ sub, (add (readings sub) (settles sub) (entered sub) (chosen sub) σ).2) σ subs.

(** The letters of the 8-bit range that come in two cases, capitals and
    small letters side by side: the twenty-six of the alphabet, and the
    accented capitals U+00C0..U+00D6 and U+00D8..U+00DE with the small
    letters U+00E0..U+00F6 and U+00F8..U+00FE. *)
Definition capitals : list N :=
  Utf16.widen "ABCDEFGHIJKLMNOPQRSTUVWXYZ" ++ (N.of_nat <$> seq 192 23 ++ seq 216 7).
Definition smalls : list N :=
  Utf16.widen "abcdefghijklmnopqrstuvwxyz" ++ (N.of_nat <$> seq 224 23 ++ seq 248 7).
Definition casePairs : list (N * N) := zip capitals smalls.

(** Two code units that are the same letter, in the same case or not. *)
Definition sameLetter (c d : N) : Prop :=
  c = d ∨ (c, d) ∈ casePairs ∨ (d, c) ∈ casePairs.

Global Instance sameLetter_dec (c d : N) : Decision (sameLetter c d).
Proof. unfold sameLetter. apply _. Defined.

(** The code units of the 8-bit range. *)
Definition units8 : list N := N.of_nat <$> seq 0 256.

(** Two texts that differ in the case of their letters at most. *)
Definition equalIgnoringCase (a b : Utf16.text) : Prop := Forall2 sameLetter a b.

(** [query] occurs in [text], unit for unit, two units being taken for
    the same when [same] holds of them. *)
Definition containsUpTo (same : N → N → Prop) (text query : Utf16.text) : Prop :=
  ∃ before occurrence after,
    text = before ++ occurrence ++ after ∧ Forall2 same occurrence query.

(** [query] occurs in [text], the case of letters apart. *)
Definition containsIgnoringCase (text query : Utf16.text) : Prop :=
  containsUpTo sameLetter text query.

(** The contract of [add] as the specification words it: the collection
    is the new record, not completed, followed by the previous ones, and
    the call returns that record. *)
Definition add_as_specified (before : list Task) (result : completion js_value)
    (after : list Task) : Prop :=
  ∃ t, completed t = false ∧ after = t :: before ∧ result = Normal (task_value t).

(** The contract of [load] as the specification words it: the empty
    sequence when the blob is absent, and the empty sequence again when
    the blob does not deserialize, the failure being logged and not
    thrown. [result], [after] and [w'] are what a load on the device [w]
    produced. *)
Definition load_as_specified `{Json} (w : World) (result : completion unit)
    (after : list Task) (w' : World) : Prop :=
  (blob w = None → after = [])
  ∧ (corrupt w →
     after = [] ∧ result = Normal tt ∧ ∃ message e, console w' = console w ++ [(message, e)]).

(** A read of the blob that fails, and the error it fails with: the
    storage promise is rejected, or the text read does not parse. *)
Inductive read_failure `{Json} : settle → World → js_error → Prop :=
| read_rejected w : read_failure Rejects w StorageError
| read_corrupt w : corrupt w → read_failure Resolves w SyntaxError.

(** [t'] is [t] but for its [completed] flag. *)
Definition same_but_completed (t t' : Task) : Prop :=
  id t' = id t ∧ title t' = title t ∧ category t' = category t ∧ date t' = date t.

(** The prompt [deleteTask] puts up, by platform. *)
Definition deletePrompt (p : os) : dialog :=
  if bool_decide (p = web)
  then window_confirm "Are you sure you want to delete this task?"
  else Alert_alert "Delete Task" "Are you sure you want to delete this task?" ["Cancel"; "Delete"].

(** The modal as each screen renders it:
    [<AddTaskModal visible={isModalVisible}
       onClose={() => setIsModalVisible(false)} onAddTask={handleAddTask} />],
    with the clock readings and the settling of the write that the
    submission will meet. *)
Definition TasksScreen_modal `{Json} (clock : Clock) (wr : settle) (s : TasksScreen.State)
  : AddTaskModal.Props TasksScreen.State :=
  AddTaskModal.mkProps _ (TasksScreen.isModalVisible s)
    (TasksScreen.setIsModalVisible false) (TasksScreen.handleAddTask clock wr).

Definition HomeScreen_modal `{Json} (clock : Clock) (wr : settle) (h : HomeScreen.State)
  : AddTaskModal.Props HomeScreen.State :=
  AddTaskModal.mkProps _ (HomeScreen.isModalVisible h)
    (HomeScreen.setIsModalVisible false) (HomeScreen.handleAddTask clock wr).

(** The alert of the modal on an empty title, by platform. *)
Definition emptyTitleAlert (p : os) : dialog :=
  if bool_decide (p = web)
  then window_alert "Please enter a task title"
  else Alert_alert "Error" "Please enter a task title" [].

(** The validation of a submission as the specification words it: an
    entry that is empty once trimmed raises an alert and leaves the
    collection alone; any other creates a task whose title is the trimmed
    entry, which the collection then holds. [w] and [w'] are the device
    before and after. *)
Definition submission_as_specified (entry : string) (before after : list Task)
    (w w' : World) : Prop :=
  (JsString.trim entry = "" → after = before ∧ dialogs w' ≠ dialogs w)
  ∧ (JsString.trim entry ≠ "" → ∃ t, t ∈ after ∧ title t = JsString.trim entry).

(** Sample data. *)
Definition device : World := mkWorld ios ∅ [] [].
Definition clock1 : Clock := mkClock 1700000000000 "11/14/2023".
Definition clock2 : Clock := mkClock 1700000060000 "11/14/2023".
Definition milk : Task := newTask clock1 "Buy milk" "Shopping".
Definition report : Task := newTask clock2 "Write report" "Work".
Definition one_reading_twice : list submission :=
  [mkSubmission clock1 Resolves "Buy milk" "Shopping"; mkSubmission clock1 Resolves "Write report" "Work"].
Definition two_readings : list submission :=
  [mkSubmission clock1 Resolves "Buy milk" "Shopping"; mkSubmission clock2 Resolves "Write report" "Work"].
Definition garbled : World := written "{" device.
Definition dotted : Wide.Task :=
  Wide.mkTask (Utf16.widen "1700000000000") [304%N] false (Utf16.widen "Work")
    (Utf16.widen "11/14/2023").
Definition odos : Wide.Task :=
  Wide.mkTask (Utf16.widen "1700000060000") [927; 916; 927; 931]%N false (Utf16.widen "Work")
    (Utf16.widen "11/14/2023").
Definition tasksScreen (ts : list Task) : TasksScreen.State := TasksScreen.mkState ts "All" false.
Definition homeScreen (ts : list Task) : HomeScreen.State :=
  HomeScreen.mkState ts (HomeScreen.categoryCounts ts) "" false.

(** ** Further vocabulary *)

(** Every code unit of [s] is white space (so also when [s] is empty). *)
Fixpoint isBlank (s : string) : bool :=
  match s with
  | String c s' => JsString.isWhiteSpace c && isBlank s'
  | EmptyString => true
  end.

Definition firstCode (s : string) : option ascii :=
  match s with
  | String c _ => Some c
  | EmptyString => None
  end.

Fixpoint lastCode (s : string) : option ascii :=
  match s with
  | EmptyString => None
  | String c EmptyString => Some c
  | String _ s' => lastCode s'
  end.

(** The blob holds the text of the collection [ts]. *)
Definition mirrors `{Json} (ts : list Task) (w : World) : Prop :=
  blob w = Some (JSON_stringify ts).

(** The category cards of the Home screen show the counts of its
    collection. *)
Definition inSync (h : HomeScreen.State) : Prop :=
  HomeScreen.categories h = HomeScreen.categoryCounts (HomeScreen.tasks h).

(** The Home screen with another text in its search box. *)
Definition searching (q : string) (h : HomeScreen.State) : HomeScreen.State :=
  (HomeScreen.setSearchQuery q (h, device)).2.1.

(** The Tasks screen with another chip selected. *)
Definition filtering (c : string) (s : TasksScreen.State) : TasksScreen.State :=
  (TasksScreen.setSelectedCategory c (s, device)).2.1.

(** ** The application: two screens, their forms, and the user's events *)

Record App := mkApp {
  onTasks : TasksScreen.State;
  tasksForm : AddTaskModal.State;
  onHome : HomeScreen.State;
  homeForm : AddTaskModal.State;
}.

(** A handler of one component, run on the application: the other
    components keep their cells. *)
Definition zoom {S A} (get : App → S) (set : S → App → App) (m : Eff S A) : Eff App A :=
  λ σ, match m (get σ.1, σ.2) with
       | (r, (s', w')) => (r, (set s' σ.1, w'))
       end.

Definition inTasks {A} : Eff TasksScreen.State A → Eff App A :=
  zoom onTasks (λ s a, mkApp s (tasksForm a) (onHome a) (homeForm a)).

Definition inHome {A} : Eff HomeScreen.State A → Eff App A :=
  zoom onHome (λ h a, mkApp (onTasks a) (tasksForm a) h (homeForm a)).

Definition inTasksForm {A} : Eff (AddTaskModal.State * TasksScreen.State) A → Eff App A :=
  zoom (λ a, (tasksForm a, onTasks a)) (λ ms a, mkApp ms.2 ms.1 (onHome a) (homeForm a)).

Definition inHomeForm {A} : Eff (AddTaskModal.State * HomeScreen.State) A → Eff App A :=
  zoom (λ a, (homeForm a, onHome a)) (λ mh a, mkApp (onTasks a) (tasksForm a) mh.2 mh.1).

(** What the user can do in the form: type in the text input, press the
    [i]-th category chip, press "Create Task", close the modal. *)
Inductive formEvent :=
| changeText (text : string)
| pressCategory (i : nat)
| pressCreate
| pressClose.

Definition handleForm {P} (props : AddTaskModal.Props P) (e : formEvent)
  : Eff (AddTaskModal.State * P) unit :=
  match e with
  | changeText text => AddTaskModal.setNewTaskTitle text
  | pressCategory i =>
      match AddTaskModal.CATEGORIES !! i with
      | Some cat => AddTaskModal.setNewTaskCategory cat
      | None => mret tt
      end
  | pressCreate => AddTaskModal.handleAddTask props
  | pressClose => AddTaskModal.handleClose props
  end.

(** What the user can do on the screens: bring a screen into focus, press
    its add button, press the [i]-th chip, press the check or the delete
    button of the [i]-th row on display, type in the search box, and use
    the form of a screen (with the clock readings and the outcome of the
    write that a submission then meets). *)
Inductive event :=
| focusTasks (rd : settle)
| pressAddOnTasks
| pressChip (i : nat)
| pressCheckOnTasks (i : nat) (wr : settle)
| pressDelete (i : nat) (answer : bool) (wr : settle)
| onTasksForm (clock : Clock) (wr : settle) (e : formEvent)
| focusHome (rd : settle)
| pressAddOnHome
| changeSearch (text : string)
| pressCheckOnHome (i : nat) (wr : settle)
| onHomeForm (clock : Clock) (wr : settle) (e : formEvent).

Definition handle `{Json} `{Utf16.Casing} (e : event) : Eff App unit :=
  a ← getState;
  match e with
  | focusTasks rd => inTasks (TasksScreen.loadTasks rd)
  | pressAddOnTasks => inTasks (TasksScreen.setIsModalVisible true)
  | pressChip i =>
      match TasksScreen.CATEGORIES !! i with
      | Some cat => inTasks (TasksScreen.setSelectedCategory cat)
      | None => mret tt
      end
  | pressCheckOnTasks i wr =>
      match TasksScreen.filteredTasks (onTasks a) !! i with
      | Some task => inTasks (TasksScreen.toggleTask wr (id task))
      | None => mret tt
      end
  | pressDelete i answer wr =>
      match TasksScreen.filteredTasks (onTasks a) !! i with
      | Some task => inTasks (TasksScreen.deleteTask answer wr (id task))
      | None => mret tt
      end
  | onTasksForm clock wr e =>
      inTasksForm (handleForm (TasksScreen_modal clock wr (onTasks a)) e)
  | focusHome rd => inHome (HomeScreen.loadData rd)
  | pressAddOnHome => inHome (HomeScreen.setIsModalVisible true)
  | changeSearch text => inHome (HomeScreen.setSearchQuery text)
  | pressCheckOnHome i wr =>
      match HomeScreen.displayedTasks (onHome a) !! i with
      | Some task => inHome (HomeScreen.toggleTask wr (id task))
      | None => mret tt
      end
  | onHomeForm clock wr e =>
      inHomeForm (handleForm (HomeScreen_modal clock wr (onHome a)) e)
  end.

(** The events of a session, each handled to its end before the next. *)
Definition run `{Json} `{Utf16.Casing} (es : list event) (σ : App * World) : App * World :=
  foldl (λ σ e, (handle e σ).2) σ es.

(** The application as installed: nothing in memory, nothing stored. *)
Definition installed (p : os) : App * World :=
  (mkApp TasksScreen.initial AddTaskModal.initial HomeScreen.initial AddTaskModal.initial,
   mkWorld p ∅ [] []).

(** A task as the form makes them: a title that is not blank and is its
    own trimming, and one of the four categories. *)
Definition wellFormed (t : Task) : Prop :=
  isBlank (title t) = false
  ∧ JsString.trim (title t) = title t
  ∧ category t ∈ AddTaskModal.CATEGORIES.

Definition tasksSound (s : TasksScreen.State) : Prop :=
  Forall wellFormed (TasksScreen.tasks s)
  ∧ TasksScreen.selectedCategory s ∈ TasksScreen.CATEGORIES.

Definition homeSound (h : HomeScreen.State) : Prop := Forall wellFormed (HomeScreen.tasks h).

Definition formSound (m : AddTaskModal.State) : Prop :=
  AddTaskModal.newTaskCategory m ∈ AddTaskModal.CATEGORIES.

(** The blob is absent, or is the text of a list of well-formed tasks. *)
Definition storeSound `{Json} (w : World) : Prop :=
  blob w = None ∨ ∃ ts, mirrors ts w ∧ Forall wellFormed ts.

Definition sound `{Json} (σ : App * World) : Prop :=
  tasksSound (onTasks σ.1) ∧ formSound (tasksForm σ.1)
  ∧ homeSound (onHome σ.1) ∧ formSound (homeForm σ.1)
  ∧ storeSound σ.2.

(** A computation that keeps the invariant [I] of its component and the
    soundness of the store. *)
Definition keeps `{Json} {S A} (I : S → Prop) (m : Eff S A) : Prop :=
  ∀ s w, I s → storeSound w → I (m (s, w)).2.1 ∧ storeSound (m (s, w)).2.2.

(** A session: install, open the Tasks screen, add a task through its
    form, check it off, look at the Home screen, search. *)
Definition session : list event :=
  [focusTasks Resolves; pressAddOnTasks;
   onTasksForm clock1 Resolves (changeText "  Buy milk ");
   onTasksForm clock1 Resolves (pressCategory 2);
   onTasksForm clock1 Resolves pressCreate;
   pressCheckOnTasks 0 Resolves;
   focusHome Resolves; changeSearch "milk"].

(** * Properties *)

(** ** The definitions at work *)

Example trim_example : JsString.trim "  Buy milk " = "Buy milk".
Proof. reflexivity. Qed.

Example trim_blank : JsString.trim (String (ascii_of_N 160) (String (ascii_of_N 9) " ")) = "".
Proof. reflexivity. Qed.

Example toLowerCase_example :
  RefCasing.toLowerCase (Utf16.widen "Buy MILK") = Utf16.widen "buy milk".
Proof. reflexivity. Qed.

Example toLowerCase_lengthens : RefCasing.toLowerCase [304%N] = [105; 775]%N.
Proof. reflexivity. Qed.

Example toLowerCase_final_sigma :
  RefCasing.toLowerCase [927; 916; 927; 931]%N = [959; 948; 959; 962]%N
  ∧ RefCasing.toLowerCase [931]%N = [963]%N
  ∧ RefCasing.toLowerCase [913; 931; 913]%N = [945; 963; 945]%N.
Proof. by vm_compute. Qed.

Example includes_example :
  Utf16.includes (Utf16.widen "buy milk") (Utf16.widen "milk") = true
  ∧ Utf16.includes (Utf16.widen "buy milk") (Utf16.widen "tea") = false
  ∧ Utf16.includes (Utf16.widen "buy milk") [] = true.
Proof. by vm_compute. Qed.

Example parse_stringify_example :
  RefJson.parse (RefJson.stringify [milk; report]) = Some [milk; report].
Proof. by vm_compute. Qed.

Example parse_brace : RefJson.parse "{" = None.
Proof. reflexivity. Qed.

Example handleAddTask_example :
  @TasksScreen.handleAddTask RefJson.json clock1 Resolves "  Buy milk " "Shopping"
    (TasksScreen.initial, device) =
  (Normal undefined, (tasksScreen [milk], written (RefJson.stringify [milk]) device)).
Proof. by vm_compute. Qed.

Example toggleTask_example :
  TasksScreen.tasks
    (@TasksScreen.toggleTask RefJson.json Resolves (id milk) (tasksScreen [report; milk], device)).2.1 =
  [report; mkTask (id milk) "Buy milk" true "Shopping" "11/14/2023"].
Proof. by vm_compute. Qed.

Example deleteTask_example :
  @TasksScreen.deleteTask RefJson.json true Resolves (id milk) (tasksScreen [report; milk], device) =
  (Normal tt,
   (tasksScreen [report],
    written (RefJson.stringify [report]) (shown (deletePrompt ios) device))).
Proof. by vm_compute. Qed.

Example categoryCounts_example :
  HomeScreen.categoryCounts [milk; report] =
  [Category.mk "0" "Work" 1; Category.mk "1" "Personal" 0;
   Category.mk "2" "Shopping" 1; Category.mk "3" "Health" 0].
Proof. by vm_compute. Qed.

(** ** The reference codec obeys the laws *)

Local Arguments String.append !_ _ / : simpl nomatch.

Lemma append_assoc (a b c : string) : (a +:+ b) +:+ c = a +:+ (b +:+ c).
Proof. induction a as [|x a IH]; simpl; [done | by rewrite IH]. Qed.

Lemma length_append (a b : string) :
  String.length (a +:+ b) = String.length a + String.length b.
Proof. induction a as [|x a IH]; simpl; [done | by rewrite IH]. Qed.

Lemma expect_append (lit rest : string) : RefJson.expect lit (lit +:+ rest) = Some rest.
Proof.
  induction lit as [|c lit IH]; simpl; [by destruct rest |].
  by rewrite Ascii.eqb_refl.
Qed.

Lemma parseChars_quoteCode (c : ascii) (rest : string) :
  RefJson.parseChars (RefJson.quoteCode c +:+ rest) =
  match RefJson.parseChars rest with
  | Some (v, r) => Some (String c v, r)
  | None => None
  end.
Proof. destruct c as [[] [] [] [] [] [] [] []]; reflexivity. Qed.

Lemma parseChars_quoteCodes (s rest : string) :
  RefJson.parseChars (RefJson.quoteCodes s +:+ String RefJson.dquote rest) = Some (s, rest).
Proof.
  induction s as [|c s IH]; [done |].
  cbn [RefJson.quoteCodes]. by rewrite append_assoc, parseChars_quoteCode, IH.
Qed.

Lemma parseString_quoteJSONString (s rest : string) :
  RefJson.parseString (RefJson.quoteJSONString s +:+ rest) = Some (s, rest).
Proof.
  unfold RefJson.quoteJSONString. cbn [String.append RefJson.parseString].
  rewrite Ascii.eqb_refl, append_assoc. apply parseChars_quoteCodes.
Qed.

Lemma parseBool_stringifyBool (b : bool) (rest : string) :
  RefJson.parseBool (RefJson.stringifyBool b +:+ rest) = Some (b, rest).
Proof. by destruct b. Qed.

Lemma parseKey_member (key value rest : string) :
  RefJson.parseKey key (RefJson.member key value +:+ rest) = Some (value +:+ rest).
Proof.
  unfold RefJson.parseKey, RefJson.member.
  rewrite !append_assoc, <- (append_assoc _ ":" (value +:+ rest)).
  apply expect_append.
Qed.

(** One step of reading back what [stringifyTask] wrote. *)
Ltac read_back :=
  first [ rewrite expect_append
        | rewrite parseKey_member
        | rewrite parseString_quoteJSONString
        | rewrite parseBool_stringifyBool ];
  cbn [mbind option_bind].

Lemma parseTask_stringifyTask (t : Task) (rest : string) :
  RefJson.parseTask (RefJson.stringifyTask t +:+ rest) = Some (t, rest).
Proof.
  destruct t as [i ti c g d].
  unfold RefJson.parseTask, RefJson.stringifyTask; cbn [id title completed category date].
  rewrite !append_assoc. by repeat read_back.
Qed.

Lemma stringifyTask_starts (t : Task) :
  ∃ rest, RefJson.stringifyTask t = String "{" (String RefJson.dquote rest).
Proof. by eexists. Qed.

Lemma length_stringifyElements (t : Task) (ts : list Task) :
  length ts < String.length (RefJson.stringifyElements t ts).
Proof.
  revert t. induction ts as [|t' ts IH]; intros t;
    cbn [RefJson.stringifyElements length]; rewrite !length_append;
    destruct (stringifyTask_starts t) as [r ->]; cbn [String.length].
  - lia.
  - specialize (IH t'). lia.
Qed.

Lemma parseElements_stringifyElements (ts : list Task) (t : Task) (fuel : nat) :
  length ts < fuel →
  RefJson.parseElements fuel (RefJson.stringifyElements t ts) = Some (t :: ts).
Proof.
  revert t fuel. induction ts as [|t' ts IH]; intros t [|fuel] Hfuel; simpl in Hfuel; try lia.
  - cbn [RefJson.parseElements RefJson.stringifyElements].
    by rewrite parseTask_stringifyTask.
  - cbn [RefJson.parseElements RefJson.stringifyElements].
    rewrite parseTask_stringifyTask. cbn.
    rewrite IH by lia. done.
Qed.

Lemma parse_stringify (ts : list Task) : RefJson.parse (RefJson.stringify ts) = Some ts.
Proof.
  destruct ts as [|t ts]; [done |].
  unfold RefJson.stringify, RefJson.parse. cbn [String.append].
  pose proof (length_stringifyElements t ts) as Hlen.
  pose proof (parseElements_stringifyElements ts t _ Hlen) as Hparse.
  destruct ts as [|t' ts]; cbn [RefJson.stringifyElements] in *;
    destruct (stringifyTask_starts t) as [r Hr]; rewrite Hr in *; exact Hparse.
Qed.

Lemma stringify_nonempty (ts : list Task) : RefJson.stringify ts ≠ "".
Proof. by destruct ts. Qed.

Lemma RefJson_laws : @JsonLaws RefJson.json.
Proof. split; [exact parse_stringify | exact stringify_nonempty]. Qed.

(** ** The handlers, evaluated *)

Section Evaluated.
Context `{Json}.

Lemma TasksScreen_saveTasks_resolves ts s w :
  TasksScreen.saveTasks Resolves ts (s, w) =
  (Normal tt,
   (TasksScreen.mkState ts (TasksScreen.selectedCategory s) (TasksScreen.isModalVisible s),
    written (JSON_stringify ts) w)).
Proof. reflexivity. Qed.

Lemma TasksScreen_saveTasks_rejects ts s w :
  TasksScreen.saveTasks Rejects ts (s, w) =
  (Normal tt, (s, logged "Failed to save tasks" StorageError w)).
Proof. reflexivity. Qed.

Lemma TasksScreen_loadTasks_rejects s w :
  TasksScreen.loadTasks Rejects (s, w) =
  (Normal tt, (s, logged "Failed to load tasks" StorageError w)).
Proof. reflexivity. Qed.

Lemma TasksScreen_loadTasks_resolves s w :
  TasksScreen.loadTasks Resolves (s, w) =
  match truthy (blob w) with
  | None => (Normal tt, (s, w))
  | Some text =>
      match JSON_parse text with
      | Some ts =>
          (Normal tt,
           (TasksScreen.mkState ts (TasksScreen.selectedCategory s) (TasksScreen.isModalVisible s), w))
      | None => (Normal tt, (s, logged "Failed to load tasks" SyntaxError w))
      end
  end.
Proof.
  unfold TasksScreen.loadTasks, try_catch, AsyncStorage_getItem, blob, parse, mbind, Eff_bind.
  cbn. destruct (truthy _) as [text|]; [| done].
  by destruct (JSON_parse text).
Qed.

Lemma HomeScreen_loadData_rejects h w :
  HomeScreen.loadData Rejects (h, w) =
  (Normal tt, (h, logged "Failed to load tasks" StorageError w)).
Proof. reflexivity. Qed.

Lemma HomeScreen_loadData_resolves h w :
  HomeScreen.loadData Resolves (h, w) =
  match truthy (blob w) with
  | None =>
      (Normal tt,
       (HomeScreen.mkState [] (HomeScreen.categoryCounts [])
          (HomeScreen.searchQuery h) (HomeScreen.isModalVisible h), w))
  | Some text =>
      match JSON_parse text with
      | Some ts =>
          (Normal tt,
           (HomeScreen.mkState ts (HomeScreen.categoryCounts ts)
              (HomeScreen.searchQuery h) (HomeScreen.isModalVisible h), w))
      | None => (Normal tt, (h, logged "Failed to load tasks" SyntaxError w))
      end
  end.
Proof.
  unfold HomeScreen.loadData, try_catch, AsyncStorage_getItem, blob, parse, mbind, Eff_bind.
  cbn. destruct (truthy _) as [text|]; [| done].
  by destruct (JSON_parse text).
Qed.

End Evaluated.

(** ** Adding a task *)

(** C1, as the specification words it, fails twice over on a valid
    submission ("Buy milk", "Shopping") to an empty collection: on the Home
    screen, with the write succeeding, the record is prepended but the call
    returns [undefined], not the record; on the Tasks screen, with the
    write rejected, the collection does not grow at all. *)
Lemma add_not_as_specified :
  (let r := @HomeScreen.handleAddTask RefJson.json clock1 Resolves "Buy milk" "Shopping"
              (HomeScreen.initial, device) in
   HomeScreen.tasks r.2.1 = [milk] ∧ ¬ add_as_specified [] r.1 (HomeScreen.tasks r.2.1))
  ∧
  (let r := @TasksScreen.handleAddTask RefJson.json clock1 Rejects "Buy milk" "Shopping"
              (TasksScreen.initial, device) in
   TasksScreen.tasks r.2.1 = [] ∧ ¬ add_as_specified [] r.1 (TasksScreen.tasks r.2.1)).
Proof.
  split; (split; [by vm_compute |]).
  - intros (t & _ & _ & Hret). vm_compute in Hret. discriminate.
  - intros (t & _ & Hafter & _). vm_compute in Hafter. discriminate.
Qed.

(** C1 (amended): for every (title, category) and every current
    collection, [add] constructs a task with [completed = false]; on the
    Home screen always, and on the Tasks screen when the storage write
    succeeds, the collection becomes that task followed by all previous
    records in order (one longer), and on the Tasks screen the same list is
    what the blob then holds; when the write of the Tasks screen is
    rejected its collection stays as it was and the failure is logged.
    Either way the call completes normally and returns no value
    ([undefined]). *)
Theorem add_prepends `{Json} (clock : Clock) (title category : string) :
  let t := newTask clock title category in
  completed t = false
  ∧ (∀ wr h w,
       let r := HomeScreen.handleAddTask clock wr title category (h, w) in
       r.1 = Normal undefined
       ∧ HomeScreen.tasks r.2.1 = t :: HomeScreen.tasks h
       ∧ length (HomeScreen.tasks r.2.1) = S (length (HomeScreen.tasks h)))
  ∧ (∀ s w,
       let r := TasksScreen.handleAddTask clock Resolves title category (s, w) in
       r.1 = Normal undefined
       ∧ TasksScreen.tasks r.2.1 = t :: TasksScreen.tasks s
       ∧ length (TasksScreen.tasks r.2.1) = S (length (TasksScreen.tasks s))
       ∧ blob r.2.2 = Some (JSON_stringify (t :: TasksScreen.tasks s)))
  ∧ (∀ s w,
       TasksScreen.handleAddTask clock Rejects title category (s, w) =
       (Normal undefined, (s, logged "Failed to save tasks" StorageError w))).
Proof.
  repeat split.
  - by destruct wr.
  - by destruct wr.
  - by destruct wr.
  - unfold blob. cbn. apply lookup_insert_eq.
Qed.

(** ** Loading *)

Section Loading.
Context `{Json}.

Lemma load_corrupt (s : TasksScreen.State) (h : HomeScreen.State) (w : World) :
  corrupt w →
  TasksScreen.loadTasks Resolves (s, w) =
    (Normal tt, (s, logged "Failed to load tasks" SyntaxError w))
  ∧ HomeScreen.loadData Resolves (h, w) =
    (Normal tt, (h, logged "Failed to load tasks" SyntaxError w)).
Proof.
  intros (text & Htext & Hparse).
  rewrite TasksScreen_loadTasks_resolves, HomeScreen_loadData_resolves.
  by rewrite Htext, Hparse.
Qed.

Lemma loadData_absent (h : HomeScreen.State) (w : World) :
  truthy (blob w) = None →
  HomeScreen.loadData Resolves (h, w) =
    (Normal tt,
     (HomeScreen.mkState [] (HomeScreen.categoryCounts [])
        (HomeScreen.searchQuery h) (HomeScreen.isModalVisible h), w)).
Proof. intros Hblob. by rewrite HomeScreen_loadData_resolves, Hblob. Qed.

Lemma loadTasks_absent (s : TasksScreen.State) (w : World) :
  truthy (blob w) = None →
  TasksScreen.loadTasks Resolves (s, w) = (Normal tt, (s, w)).
Proof. intros Hblob. by rewrite TasksScreen_loadTasks_resolves, Hblob. Qed.

End Loading.

Lemma garbled_corrupt : @corrupt RefJson.json garbled.
Proof. exists "{". by vm_compute. Qed.

(** C2, as the specification words it, fails on both screens once a
    collection is in memory: with [milk] loaded and the blob garbled to
    the text of one opening brace, the load leaves [milk] in place instead of
    yielding the empty sequence. *)
Lemma load_not_as_specified :
  (let r := @TasksScreen.loadTasks RefJson.json Resolves (tasksScreen [milk], garbled) in
   TasksScreen.tasks r.2.1 = [milk]
   ∧ ¬ @load_as_specified RefJson.json garbled r.1 (TasksScreen.tasks r.2.1) r.2.2)
  ∧
  (let r := @HomeScreen.loadData RefJson.json Resolves (homeScreen [milk], garbled) in
   HomeScreen.tasks r.2.1 = [milk]
   ∧ ¬ @load_as_specified RefJson.json garbled r.1 (HomeScreen.tasks r.2.1) r.2.2).
Proof.
  split; (split; [by vm_compute |]); intros [_ Hcorrupt];
    destruct (Hcorrupt garbled_corrupt) as (Hafter & _); vm_compute in Hafter; discriminate.
Qed.

(** C2 (amended): a load that finds the blob absent yields the empty
    sequence on the Home screen, and on the Tasks screen too when its
    collection was empty before; a load whose blob does not deserialize
    leaves the collection in memory as it was (so empty when it was empty
    before) on both screens; the failure is logged on the console and the
    load completes normally, nothing being thrown to the caller. *)
Theorem load_absent_or_corrupt `{Json} (s : TasksScreen.State) (h : HomeScreen.State)
    (w : World) :
  (truthy (blob w) = None →
     (let r := HomeScreen.loadData Resolves (h, w) in
      r.1 = Normal tt ∧ HomeScreen.tasks r.2.1 = [] ∧ r.2.2 = w)
     ∧ (TasksScreen.tasks s = [] →
        let r := TasksScreen.loadTasks Resolves (s, w) in
        r.1 = Normal tt ∧ TasksScreen.tasks r.2.1 = [] ∧ r.2.2 = w))
  ∧ (corrupt w →
     TasksScreen.loadTasks Resolves (s, w) =
       (Normal tt, (s, logged "Failed to load tasks" SyntaxError w))
     ∧ HomeScreen.loadData Resolves (h, w) =
       (Normal tt, (h, logged "Failed to load tasks" SyntaxError w))
     ∧ (TasksScreen.tasks s = [] →
        TasksScreen.tasks (TasksScreen.loadTasks Resolves (s, w)).2.1 = [])
     ∧ (HomeScreen.tasks h = [] →
        HomeScreen.tasks (HomeScreen.loadData Resolves (h, w)).2.1 = [])).
Proof.
  split.
  - intros Hblob. split.
    + by rewrite loadData_absent.
    + intros Hempty. by rewrite loadTasks_absent.
  - intros Hcorrupt. destruct (load_corrupt s h w Hcorrupt) as [-> ->]. done.
Qed.

Lemma load_absent_or_corrupt_witness :
  (let r := @HomeScreen.loadData RefJson.json Resolves (homeScreen [milk], device) in
   r.1 = Normal tt ∧ HomeScreen.tasks r.2.1 = [] ∧ r.2.2 = device)
  ∧ @TasksScreen.loadTasks RefJson.json Resolves (tasksScreen [milk], garbled) =
      (Normal tt, (tasksScreen [milk], logged "Failed to load tasks" SyntaxError garbled)).
Proof.
  pose proof (@load_absent_or_corrupt RefJson.json (tasksScreen [milk]) (homeScreen [milk])) as Hload.
  split.
  - apply (Hload device). reflexivity.
  - apply (Hload garbled). exact garbled_corrupt.
Defined.

(** C7: on a storage-read failure (the storage promise is rejected, or
    the text read does not parse) the failure is logged, with the message
    "Failed to load tasks", and the state of the screen, its task
    collection included, is after the failed load exactly what it was
    before; this on both screens. *)
Theorem read_failure_keeps_state `{Json} (rd : settle) (e : js_error)
    (s : TasksScreen.State) (h : HomeScreen.State) (w : World) :
  read_failure rd w e →
  TasksScreen.loadTasks rd (s, w) = (Normal tt, (s, logged "Failed to load tasks" e w))
  ∧ HomeScreen.loadData rd (h, w) = (Normal tt, (h, logged "Failed to load tasks" e w)).
Proof.
  intros [w0 | w0 Hcorrupt].
  - by rewrite TasksScreen_loadTasks_rejects, HomeScreen_loadData_rejects.
  - by apply load_corrupt.
Qed.

Lemma read_failure_keeps_state_witness :
  @TasksScreen.loadTasks RefJson.json Rejects (tasksScreen [milk], device) =
    (Normal tt, (tasksScreen [milk], logged "Failed to load tasks" StorageError device))
  ∧ @HomeScreen.loadData RefJson.json Rejects (homeScreen [milk], device) =
    (Normal tt, (homeScreen [milk], logged "Failed to load tasks" StorageError device)).
Proof.
  apply (@read_failure_keeps_state RefJson.json Rejects StorageError). constructor.
Defined.

(** ** Toggling *)

Lemma toggled_involutive (id0 : string) (t : Task) : toggled id0 (toggled id0 t) = t.
Proof.
  unfold toggled. destruct t as [i ti c g d]; cbn.
  destruct (bool_decide_reflect (i = id0)) as [Heq | Hne]; cbn.
  - rewrite bool_decide_true by done. by rewrite negb_involutive.
  - by rewrite bool_decide_false.
Qed.

Lemma toggled_twice (id0 : string) (ts : list Task) :
  toggled id0 <$> (toggled id0 <$> ts) = ts.
Proof.
  induction ts as [|t ts IH]; [done |].
  cbn [fmap list_fmap] in *. by rewrite toggled_involutive, IH.
Qed.

Lemma toggled_frame (id0 : string) (t : Task) :
  same_but_completed t (toggled id0 t) ∧ (id t ≠ id0 → toggled id0 t = t).
Proof.
  unfold toggled, same_but_completed. case_bool_decide; cbn; [| done].
  repeat split; done.
Qed.

Lemma toggled_no_match (id0 : string) (ts : list Task) :
  (∀ t, t ∈ ts → id t ≠ id0) → toggled id0 <$> ts = ts.
Proof.
  induction ts as [|t ts IH]; intros Hts; [done |].
  cbn [fmap list_fmap]. f_equal.
  - apply toggled_frame, Hts. by left.
  - apply IH. intros t' Ht'. apply Hts. by right.
Qed.

Section Toggling.
Context `{Json}.

Lemma TasksScreen_toggleTask_tasks (wr : settle) (id0 : string) s w :
  TasksScreen.tasks (TasksScreen.toggleTask wr id0 (s, w)).2.1 =
  match wr with
  | Resolves => toggled id0 <$> TasksScreen.tasks s
  | Rejects => TasksScreen.tasks s
  end.
Proof. by destruct wr. Qed.

Lemma HomeScreen_toggleTask_tasks (wr : settle) (id0 : string) h w :
  HomeScreen.tasks (HomeScreen.toggleTask wr id0 (h, w)).2.1 = toggled id0 <$> HomeScreen.tasks h.
Proof. by destruct wr. Qed.

End Toggling.

(** C3, as the specification words it, fails on the Tasks screen when
    exactly one of the two storage writes is rejected: with the first
    write rejected and the second succeeding, two toggles of [milk] leave
    it completed, where it was not. *)
Lemma toggle_twice_not_identity :
  let σ1 := (@TasksScreen.toggleTask RefJson.json Rejects (id milk) (tasksScreen [milk], device)).2 in
  let σ2 := (@TasksScreen.toggleTask RefJson.json Resolves (id milk) σ1).2 in
  completed <$> [milk] = [false] ∧ completed <$> TasksScreen.tasks σ2.1 = [true].
Proof. by vm_compute. Qed.

(** C3 (amended): for every collection and every id, applying
    [toggleCompletion id] twice in succession gives back the collection it
    started from, every record with its original [completed] value, on the
    Tasks screen when the two storage writes settle alike (both succeed or
    both are rejected) and on the Home screen however they settle. *)
Theorem toggle_twice `{Json} (id0 : string) :
  (∀ wr s w,
     let σ1 := (TasksScreen.toggleTask wr id0 (s, w)).2 in
     let σ2 := (TasksScreen.toggleTask wr id0 σ1).2 in
     TasksScreen.tasks σ2.1 = TasksScreen.tasks s
     ∧ completed <$> TasksScreen.tasks σ2.1 = completed <$> TasksScreen.tasks s)
  ∧ (∀ wr1 wr2 h w,
       let σ1 := (HomeScreen.toggleTask wr1 id0 (h, w)).2 in
       let σ2 := (HomeScreen.toggleTask wr2 id0 σ1).2 in
       HomeScreen.tasks σ2.1 = HomeScreen.tasks h
       ∧ completed <$> HomeScreen.tasks σ2.1 = completed <$> HomeScreen.tasks h).
Proof.
  split.
  - intros wr s w σ1 σ2.
    assert (TasksScreen.tasks σ2.1 = TasksScreen.tasks s) as ->; [| done].
    subst σ1 σ2.
    destruct (TasksScreen.toggleTask wr id0 (s, w)) as [r1 [s1 w1]] eqn:E1.
    pose proof (TasksScreen_toggleTask_tasks wr id0 s w) as H1. rewrite E1 in H1.
    cbn [fst snd] in *. rewrite TasksScreen_toggleTask_tasks, H1.
    destruct wr; [apply toggled_twice | done].
  - intros wr1 wr2 h w σ1 σ2.
    assert (HomeScreen.tasks σ2.1 = HomeScreen.tasks h) as ->; [| done].
    subst σ1 σ2.
    destruct (HomeScreen.toggleTask wr1 id0 (h, w)) as [r1 [h1 w1]] eqn:E1.
    pose proof (HomeScreen_toggleTask_tasks wr1 id0 h w) as H1. rewrite E1 in H1.
    cbn [fst snd] in *. rewrite HomeScreen_toggleTask_tasks, H1.
    apply toggled_twice.
Qed.

(** C5: for every collection and every id, [toggleCompletion id] leaves
    the collection with the same records in the same places, each with
    its [id], [title], [category] and [date] as before, and each record
    whose identifier differs from [id] unchanged as a whole; when no
    record matches, the collection is unchanged.  This on both screens and
    however the storage write settles. *)
Theorem toggle_frame `{Json} (wr : settle) (id0 : string) :
  (∀ s w,
     let s' := (TasksScreen.toggleTask wr id0 (s, w)).2.1 in
     Forall2 (λ t t', same_but_completed t t' ∧ (id t ≠ id0 → t' = t))
             (TasksScreen.tasks s) (TasksScreen.tasks s')
     ∧ ((∀ t, t ∈ TasksScreen.tasks s → id t ≠ id0) → TasksScreen.tasks s' = TasksScreen.tasks s))
  ∧ (∀ h w,
       let h' := (HomeScreen.toggleTask wr id0 (h, w)).2.1 in
       Forall2 (λ t t', same_but_completed t t' ∧ (id t ≠ id0 → t' = t))
               (HomeScreen.tasks h) (HomeScreen.tasks h')
       ∧ ((∀ t, t ∈ HomeScreen.tasks h → id t ≠ id0) → HomeScreen.tasks h' = HomeScreen.tasks h)).
Proof.
  assert (∀ ts, Forall2 (λ t t', same_but_completed t t' ∧ (id t ≠ id0 → t' = t))
                        ts (toggled id0 <$> ts)) as Hmap.
  { intros ts. apply Forall2_fmap_r, Forall_Forall2_diag, Forall_forall.
    intros t _. apply toggled_frame. }
  assert (∀ ts : list Task, Forall2 (λ t t', same_but_completed t t' ∧ (id t ≠ id0 → t' = t))
                        ts ts) as Hsame.
  { intros ts. apply Forall_Forall2_diag, Forall_forall. intros t _. by repeat split. }
  split.
  - intros s w s'. subst s'. rewrite TasksScreen_toggleTask_tasks.
    destruct wr; split; auto using toggled_no_match.
  - intros h w h'. subst h'. rewrite HomeScreen_toggleTask_tasks.
    split; auto using toggled_no_match.
Qed.

Lemma toggle_frame_witness :
  let s' := (@TasksScreen.toggleTask RefJson.json Resolves "0" (tasksScreen [milk; report], device)).2.1 in
  Forall2 (λ t t', same_but_completed t t' ∧ (id t ≠ "0" → t' = t))
          [milk; report] (TasksScreen.tasks s')
  ∧ TasksScreen.tasks s' = [milk; report].
Proof.
  destruct (@toggle_frame RefJson.json Resolves "0") as [Htasks _].
  destruct (Htasks (tasksScreen [milk; report]) device) as [Hframe Hnone].
  split; [exact Hframe |].
  apply Hnone. intros t Ht. vm_compute in Ht.
  repeat (apply elem_of_cons in Ht as [-> | Ht]; [by vm_compute |]).
  by apply elem_of_nil in Ht.
Defined.

(** ** Removing *)

Section Removing.
Context `{Json}.

Lemma TasksScreen_deleteTask_confirmed (wr : settle) (id0 : string) s w :
  TasksScreen.deleteTask true wr id0 (s, w) =
  TasksScreen.saveTasks wr (filter (λ task, id task ≠ id0) (TasksScreen.tasks s))
    (s, shown (deletePrompt (platform w)) w).
Proof. destruct w as [p st c d]. by destruct p. Qed.

Lemma TasksScreen_deleteTask_cancelled (wr : settle) (id0 : string) s w :
  TasksScreen.deleteTask false wr id0 (s, w) =
  (Normal tt, (s, shown (deletePrompt (platform w)) w)).
Proof. destruct w as [p st c d]. by destruct p. Qed.

Lemma truthy_blob_written `{!JsonLaws} (ts : list Task) (w : World) :
  truthy (blob (written (JSON_stringify ts) w)) = Some (JSON_stringify ts).
Proof.
  unfold blob, written, truthy. cbn. rewrite lookup_insert_eq.
  rewrite bool_decide_false; [done | apply JSON_stringify_nonempty].
Qed.

End Removing.

(** C4: for every collection and every id, once [remove id] has been
    confirmed by the user and applied (its storage write succeeded), a
    subsequent load yields the collection without the records of that
    identifier, so no record of it: on the Tasks screen however the read
    settles, and on the Home screen when the read succeeds. *)
Theorem remove_then_load `{Json} `{!JsonLaws} (id0 : string) (s : TasksScreen.State)
    (w : World) :
  let σ := (TasksScreen.deleteTask true Resolves id0 (s, w)).2 in
  let remaining := filter (λ task, id task ≠ id0) (TasksScreen.tasks s) in
  (∀ rd, TasksScreen.tasks (TasksScreen.loadTasks rd σ).2.1 = remaining)
  ∧ (∀ h, HomeScreen.tasks (HomeScreen.loadData Resolves (h, σ.2)).2.1 = remaining)
  ∧ (∀ t, t ∈ remaining → id t ≠ id0).
Proof.
  intros σ remaining. subst σ.
  rewrite TasksScreen_deleteTask_confirmed, TasksScreen_saveTasks_resolves.
  cbn [fst snd]. fold remaining. repeat split.
  - intros [|].
    + rewrite TasksScreen_loadTasks_resolves, truthy_blob_written.
      by rewrite JSON_parse_stringify.
    + by rewrite TasksScreen_loadTasks_rejects.
  - intros h. rewrite HomeScreen_loadData_resolves, truthy_blob_written.
    by rewrite JSON_parse_stringify.
  - intros t Ht. by apply list_elem_of_filter in Ht as [? _].
Qed.

Lemma remove_then_load_witness :
  let σ := (@TasksScreen.deleteTask RefJson.json true Resolves (id milk)
              (tasksScreen [report; milk], device)).2 in
  let remaining := filter (λ task, id task ≠ id milk) [report; milk] in
  (∀ rd, TasksScreen.tasks (@TasksScreen.loadTasks RefJson.json rd σ).2.1 = remaining)
  ∧ (∀ h, HomeScreen.tasks (@HomeScreen.loadData RefJson.json Resolves (h, σ.2)).2.1 = remaining)
  ∧ (∀ t, t ∈ remaining → id t ≠ id milk).
Proof.
  exact (@remove_then_load RefJson.json RefJson_laws (id milk) (tasksScreen [report; milk]) device).
Defined.

(** ** Identifiers *)

Lemma toString_inj (m n : Z) : toString m = toString n → m = n.
Proof. apply pretty_Z_inj. Qed.

Lemma newTask_id (c1 c2 : Clock) (t1 g1 t2 g2 : string) :
  id (newTask c1 t1 g1) = id (newTask c2 t2 g2) ↔ now c1 = now c2.
Proof. cbn. split; [apply toString_inj | by intros ->]. Qed.

Lemma ids_cons (clock : Clock) (title category : string) (ts : list Task) :
  NoDup (id <$> ts) →
  (∀ t, t ∈ ts → id t ≠ toString (now clock)) →
  NoDup (id <$> newTask clock title category :: ts).
Proof.
  intros Hts Hfresh. cbn [fmap list_fmap]. apply NoDup_cons. split; [| done].
  intros (t & Hid & Ht)%list_elem_of_fmap. by apply (Hfresh t).
Qed.

(** The invariant of a series of submissions at pairwise different
    readings, over any handler that at each submission either prepends the
    new task or leaves the collection alone. *)
Lemma submitAll_ids {S} (tasks : S → list Task)
    (add : Clock → settle → string → string → Eff S js_value) :
  (∀ clock wr title category σ,
     let ts := tasks (add clock wr title category σ).2.1 in
     ts = newTask clock title category :: tasks σ.1 ∨ ts = tasks σ.1) →
  ∀ subs σ,
    NoDup (now ∘ readings <$> subs) →
    NoDup (id <$> tasks σ.1) →
    (∀ t sub, t ∈ tasks σ.1 → sub ∈ subs → id t ≠ toString (now (readings sub))) →
    NoDup (id <$> tasks (submitAll add subs σ).1).
Proof.
  intros Hadd subs. induction subs as [|sub subs IH]; intros σ Hsubs Hids Hfresh; [done |].
  cbn [submitAll foldl]. apply NoDup_cons in Hsubs as [Hsub Hsubs].
  apply IH; [done | |].
  - destruct (Hadd (readings sub) (settles sub) (entered sub) (chosen sub) σ) as [-> | ->];
      [| done].
    apply ids_cons; [done |]. intros t Ht. apply (Hfresh t sub); [done | by left].
  - intros t sub' Ht Hsub'.
    destruct (Hadd (readings sub) (settles sub) (entered sub) (chosen sub) σ) as [Heq | Heq];
      rewrite Heq in Ht.
    + apply elem_of_cons in Ht as [-> | Ht].
      * cbn. intros Hsame%toString_inj. apply Hsub.
        apply list_elem_of_fmap. exists sub'. by split.
      * apply (Hfresh t sub'); [done | by right].
    + apply (Hfresh t sub'); [done | by right].
Qed.

(** C6, as the specification words it, fails: two submissions that read
    the same millisecond off the clock produce two distinct records with
    one identifier. *)
Lemma identifiers_not_unique :
  let ts := HomeScreen.tasks
              (submitAll (@HomeScreen.handleAddTask RefJson.json) one_reading_twice
                 (HomeScreen.initial, device)).1 in
  title <$> ts = ["Write report"; "Buy milk"]
  ∧ id <$> ts = ["1700000000000"; "1700000000000"]
  ∧ ¬ NoDup (id <$> ts).
Proof.
  repeat split; [by vm_compute.. |].
  intros Hdup. vm_compute in Hdup. apply NoDup_cons in Hdup as [Hin _].
  apply Hin. by left.
Qed.

(** C6 (amended): two records produced by [add] have different
    identifiers exactly when the clock readings taken at their creation
    (in milliseconds) differ; hence, when the submissions of a series take
    pairwise different readings, as under a strictly increasing clock, and
    none of them repeats the identifier of a record already there, every
    identifier in the collection stays unique, on both screens. *)
Theorem identifiers_unique `{Json} (subs : list submission) :
  NoDup (now ∘ readings <$> subs) →
  (∀ h w,
     NoDup (id <$> HomeScreen.tasks h) →
     (∀ t sub, t ∈ HomeScreen.tasks h → sub ∈ subs → id t ≠ toString (now (readings sub))) →
     NoDup (id <$> HomeScreen.tasks (submitAll HomeScreen.handleAddTask subs (h, w)).1))
  ∧ (∀ s w,
       NoDup (id <$> TasksScreen.tasks s) →
       (∀ t sub, t ∈ TasksScreen.tasks s → sub ∈ subs → id t ≠ toString (now (readings sub))) →
       NoDup (id <$> TasksScreen.tasks (submitAll TasksScreen.handleAddTask subs (s, w)).1))
  ∧ (∀ c1 c2 t1 g1 t2 g2,
       id (newTask c1 t1 g1) = id (newTask c2 t2 g2) ↔ now c1 = now c2).
Proof.
  intros Hsubs. repeat split.
  - intros h w Hids Hfresh.
    apply (submitAll_ids HomeScreen.tasks HomeScreen.handleAddTask) with (σ := (h, w)); [| done..].
    intros clock wr title category σ. left. by destruct wr.
  - intros s w Hids Hfresh.
    apply (submitAll_ids TasksScreen.tasks TasksScreen.handleAddTask) with (σ := (s, w)); [| done..].
    intros clock wr title category σ. destruct wr; [by left | by right].
  - apply newTask_id.
  - apply newTask_id.
Qed.

Lemma identifiers_unique_witness :
  NoDup (id <$> HomeScreen.tasks
                  (submitAll (@HomeScreen.handleAddTask RefJson.json) two_readings
                     (HomeScreen.initial, device)).1)
  ∧ NoDup (id <$> TasksScreen.tasks
                    (submitAll (@TasksScreen.handleAddTask RefJson.json) two_readings
                       (TasksScreen.initial, device)).1).
Proof.
  assert (NoDup (now ∘ readings <$> two_readings)) as Hsubs.
  { by apply (bool_decide_unpack _). }
  destruct (@identifiers_unique RefJson.json two_readings Hsubs) as (Hhome & Htasks & _).
  split.
  - apply Hhome; [constructor | by intros t sub Ht%elem_of_nil].
  - apply Htasks; [constructor | by intros t sub Ht%elem_of_nil].
Defined.

(** ** Submitting the form *)

Lemma length_zero (s : string) : String.length s = 0 ↔ s = "".
Proof. by destruct s. Qed.

Section Submitting.
Context {P : Type} (props : AddTaskModal.Props P).

Lemma AddTaskModal_handleAddTask_empty (m : AddTaskModal.State) (p : P) (w : World) :
  JsString.trim (AddTaskModal.newTaskTitle m) = "" →
  AddTaskModal.handleAddTask props ((m, p), w) =
  (Normal tt, ((m, p), shown (emptyTitleAlert (platform w)) w)).
Proof.
  intros Hempty%length_zero. unfold AddTaskModal.handleAddTask, mbind, Eff_bind. cbn.
  rewrite bool_decide_true by done. destruct w as [pl st c d]. by destruct pl.
Qed.

Lemma AddTaskModal_handleAddTask_entered (m : AddTaskModal.State) (p : P) (w : World) :
  JsString.trim (AddTaskModal.newTaskTitle m) ≠ "" →
  AddTaskModal.handleAddTask props ((m, p), w) =
  (AddTaskModal.parent
     (AddTaskModal.onAddTask props (AddTaskModal.newTaskTitle m) (AddTaskModal.newTaskCategory m));;
   AddTaskModal.setNewTaskTitle "";;
   AddTaskModal.parent (AddTaskModal.onClose props)) ((m, p), w).
Proof.
  intros Hentered. unfold AddTaskModal.handleAddTask at 1, mbind at 1, Eff_bind at 1. cbn.
  rewrite bool_decide_false; [done |]. by rewrite length_zero.
Qed.

End Submitting.

(** C8, as the specification words it, fails on the Tasks screen when the
    storage write is rejected: the entry "  Buy milk ", not empty once
    trimmed, then creates no task. *)
Lemma submission_not_as_specified :
  let m := AddTaskModal.mkState "  Buy milk " "Shopping" in
  let r := AddTaskModal.handleAddTask
             (@TasksScreen_modal RefJson.json clock1 Rejects TasksScreen.initial)
             ((m, TasksScreen.initial), device) in
  JsString.trim "  Buy milk " = "Buy milk"
  ∧ TasksScreen.tasks r.2.1.2 = []
  ∧ ¬ submission_as_specified "  Buy milk " [] (TasksScreen.tasks r.2.1.2) device r.2.2.
Proof.
  repeat split; [by vm_compute.. |].
  intros [_ Hcreated]. destruct Hcreated as (t & Hafter & _); [by vm_compute |].
  vm_compute in Hafter. by apply elem_of_nil in Hafter.
Qed.

(** C8 (amended): a submission whose title is empty after trimming is
    rejected with an alert and creates no task: the state of the screen
    and the store are as before, as is the form; a submission whose
    trimmed title is not empty hands the entry to the screen, which builds
    a task whose title is the trimmed entry and puts it first in the
    collection -- always on the Home screen, and on the Tasks screen when
    the storage write succeeds (when it is rejected, the collection is
    unchanged); the form is then cleared and the modal closed. *)
Theorem submission_validated `{Json} (m : AddTaskModal.State) :
  let entry := AddTaskModal.newTaskTitle m in
  let chosen := AddTaskModal.newTaskCategory m in
  (JsString.trim entry = "" →
     ∀ P (props : AddTaskModal.Props P) (p : P) w,
       AddTaskModal.handleAddTask props ((m, p), w) =
       (Normal tt, ((m, p), shown (emptyTitleAlert (platform w)) w)))
  ∧ (JsString.trim entry ≠ "" →
     (∀ clock, title (newTask clock entry chosen) = JsString.trim entry)
     ∧ (∀ clock wr s w,
          let r := AddTaskModal.handleAddTask (TasksScreen_modal clock wr s) ((m, s), w) in
          r.1 = Normal tt
          ∧ r.2.1.1 = AddTaskModal.mkState "" chosen
          ∧ TasksScreen.isModalVisible r.2.1.2 = false
          ∧ TasksScreen.tasks r.2.1.2 =
              match wr with
              | Resolves => newTask clock entry chosen :: TasksScreen.tasks s
              | Rejects => TasksScreen.tasks s
              end)
     ∧ (∀ clock wr h w,
          let r := AddTaskModal.handleAddTask (HomeScreen_modal clock wr h) ((m, h), w) in
          r.1 = Normal tt
          ∧ r.2.1.1 = AddTaskModal.mkState "" chosen
          ∧ HomeScreen.isModalVisible r.2.1.2 = false
          ∧ HomeScreen.tasks r.2.1.2 = newTask clock entry chosen :: HomeScreen.tasks h)).
Proof.
  intros entry chosen. split.
  - intros Hempty P props p w. by apply AddTaskModal_handleAddTask_empty.
  - intros Hentered. repeat split.
    all: rewrite AddTaskModal_handleAddTask_entered by done; by destruct wr.
Qed.

Lemma submission_validated_witness :
  AddTaskModal.handleAddTask
    (@TasksScreen_modal RefJson.json clock1 Resolves TasksScreen.initial)
    ((AddTaskModal.mkState "   " "Work", TasksScreen.initial), device) =
  (Normal tt, ((AddTaskModal.mkState "   " "Work", TasksScreen.initial),
               shown (emptyTitleAlert ios) device))
  ∧ title (newTask clock1 "  Buy milk " "Shopping") = "Buy milk".
Proof.
  split.
  - apply (@submission_validated RefJson.json (AddTaskModal.mkState "   " "Work")).
    reflexivity.
  - apply (@submission_validated RefJson.json (AddTaskModal.mkState "  Buy milk " "Shopping")).
    by vm_compute.
Defined.

(** ** Searching *)

Lemma startsWith_spec (s search : Utf16.text) :
  Utf16.startsWith s search = true ↔ ∃ rest, s = search ++ rest.
Proof.
  revert s. induction search as [|c search IH]; intros s; cbn.
  - split; [by intros _; exists s | done].
  - destruct s as [|d s]; cbn.
    + split; [done | by intros [rest ?]].
    + rewrite andb_true_iff, N.eqb_eq, IH. split.
      * intros [-> [rest ->]]. by exists rest.
      * intros [rest [= -> ->]]. split; [done | by exists rest].
Qed.

Lemma includes_spec (s search : Utf16.text) :
  Utf16.includes s search = true ↔ ∃ before after, s = before ++ search ++ after.
Proof.
  induction s as [|d s IH]; cbn [Utf16.includes]; rewrite orb_true_iff, startsWith_spec.
  - split.
    + intros [[rest Hrest] | ?]; [| done]. by exists [], rest.
    + intros (before & after & Hs). left. destruct before; [| done]. by exists after.
  - rewrite IH. split.
    + intros [[rest Hrest] | (before & after & ->)].
      * by exists [], rest.
      * by exists (d :: before), after.
    + intros (before & after & Hs). destruct before as [|b before]; cbn in Hs.
      * left. by exists after.
      * right. injection Hs as -> ->. by exists before, after.
Qed.

Lemma filter_none {A} (P : A → Prop) `{∀ x, Decision (P x)} (l : list A) :
  (∀ x, x ∈ l → ¬ P x) → filter P l = [].
Proof.
  induction l as [|x l IH]; intros Hnone; [done |].
  rewrite filter_cons_False by (apply Hnone; by left).
  apply IH. intros y Hy. apply Hnone. by right.
Qed.

Lemma filter_ext_in {A} (P Q : A → Prop)
    `{∀ x, Decision (P x)} `{∀ x, Decision (Q x)} (l : list A) :
  (∀ x, x ∈ l → P x ↔ Q x) → filter P l = filter Q l.
Proof.
  induction l as [|x l IH]; intros Hiff; [done |].
  rewrite !filter_cons.
  assert (filter P l = filter Q l) as -> by (apply IH; intros y Hy; apply Hiff; by right).
  destruct (decide (P x)) as [HP | HP].
  - rewrite decide_True; [done |]. apply Hiff; [by left | done].
  - rewrite decide_False; [done |]. intros HQ. apply HP, Hiff; [by left | done].
Qed.

Lemma filter_fmap {A B} (f : A → B) (P : B → Prop) `{∀ y, Decision (P y)} (l : list A) :
  filter P (f <$> l) = f <$> filter (λ x, P (f x)) l.
Proof.
  induction l as [|x l IH]; [done |]. cbn [fmap list_fmap].
  rewrite !filter_cons, IH. by destruct (decide (P (f x))).
Qed.

(** The strings of the components are text of the 8-bit range. *)
Lemma widen_narrow (s : string) : Utf16.narrow (Utf16.widen s).
Proof.
  induction s as [|c s IH]; constructor; [| done].
  destruct c as [[] [] [] [] [] [] [] []]; by vm_compute.
Qed.

Lemma length_widen (s : string) : length (Utf16.widen s) = String.length s.
Proof. induction s as [|c s IH]; cbn; [done | by rewrite IH]. Qed.

(** The search view of the Home screen is the search view on any text,
    at the text of the 8-bit range. *)
Lemma displayedTasks_widen `{Utf16.Casing} (s : HomeScreen.State) :
  widenTask <$> HomeScreen.displayedTasks s
  = Wide.displayedTasks (Utf16.widen (HomeScreen.searchQuery s)) (widenTask <$> HomeScreen.tasks s).
Proof.
  unfold HomeScreen.displayedTasks, Wide.displayedTasks. rewrite length_widen.
  case_bool_decide; [| by rewrite fmap_take].
  by rewrite filter_fmap.
Qed.

Lemma displayedTasks_search `{Utf16.Casing} (searchQuery : Utf16.text) (tasks : list Wide.Task) :
  searchQuery ≠ [] →
  Wide.displayedTasks searchQuery tasks
  = filter (λ t, Utf16.includes (Utf16.toLowerCase (Wide.title t))
                                (Utf16.toLowerCase searchQuery) = true) tasks.
Proof.
  intros Hquery. unfold Wide.displayedTasks. rewrite bool_decide_true; [done |].
  destruct searchQuery; [done | cbn; lia].
Qed.

Lemma elem_of_units8 (u : N) : (u < 256)%N → u ∈ units8.
Proof.
  intros Hu. apply list_elem_of_fmap. exists (N.to_nat u). split; [lia |].
  apply elem_of_seq. lia.
Qed.

(** Lower-casing takes the capital of each pair to its small letter, which
    is thirty-two places up and which it leaves alone. *)
Lemma lowerUnit_casePairs (c d : N) :
  (c, d) ∈ casePairs → Utf16.lowerUnit c = d ∧ Utf16.lowerUnit d = d ∧ d = (c + 32)%N.
Proof.
  assert (Forall (λ p, Utf16.lowerUnit p.1 = p.2 ∧ Utf16.lowerUnit p.2 = p.2
                       ∧ p.2 = (p.1 + 32)%N) casePairs) as Htable.
  { apply (bool_decide_unpack _). by vm_compute. }
  rewrite Forall_forall in Htable. apply Htable.
Qed.

(** It changes the capitals of the pairs only. *)
Lemma lowerUnit_changes (c : N) :
  (c < 256)%N → Utf16.lowerUnit c = c ∨ (c, Utf16.lowerUnit c) ∈ casePairs.
Proof.
  assert (Forall (λ c, Utf16.lowerUnit c = c ∨ (c, Utf16.lowerUnit c) ∈ casePairs) units8)
    as Htable.
  { apply (bool_decide_unpack _). by vm_compute. }
  rewrite Forall_forall in Htable. intros Hc. by apply Htable, elem_of_units8.
Qed.

(** Two code units of the 8-bit range have the same lower case exactly
    when they are the same letter. *)
Lemma lowerUnit_sameLetter (c d : N) :
  (c < 256)%N → (d < 256)%N →
  Utf16.lowerUnit c = Utf16.lowerUnit d ↔ sameLetter c d.
Proof.
  intros Hc Hd. unfold sameLetter. split.
  - intros Hcd.
    destruct (lowerUnit_changes c Hc) as [Hc' | Hc'],
             (lowerUnit_changes d Hd) as [Hd' | Hd'].
    + left. congruence.
    + right; right. by rewrite <- Hcd, Hc' in Hd'.
    + right; left. by rewrite Hcd, Hd' in Hc'.
    + left. apply lowerUnit_casePairs in Hc' as (_ & _ & Hc').
      apply lowerUnit_casePairs in Hd' as (_ & _ & Hd'). lia.
  - intros [-> | [Hpair | Hpair]]; [done | |];
      apply lowerUnit_casePairs in Hpair as (H1 & H2 & _); congruence.
Qed.

Lemma fmap_lowerUnit (a b : Utf16.text) :
  Utf16.narrow a → Utf16.narrow b →
  Utf16.lowerUnit <$> a = Utf16.lowerUnit <$> b ↔ equalIgnoringCase a b.
Proof.
  unfold equalIgnoringCase. intros Ha. revert b.
  induction Ha as [|c a Hc Ha IH]; intros b Hb.
  - split.
    + intros Hab. symmetry in Hab. apply fmap_nil_inv in Hab as ->. constructor.
    + by intros ->%Forall2_nil_inv_l.
  - destruct Hb as [|d b Hd Hb].
    + split; [done | by intros ?%Forall2_nil_inv_r].
    + cbn [fmap list_fmap]. split.
      * intros [= Hcd Hab]. constructor; [by apply lowerUnit_sameLetter | by apply IH].
      * intros [Hcd Hab]%Forall2_cons. f_equal; [by apply lowerUnit_sameLetter | by apply IH].
Qed.

(** On text of the 8-bit range, looking for the lower-cased query in the
    lower-cased text is looking for the query with the case of letters
    disregarded. *)
Lemma includes_toLowerCase `{Utf16.Casing} `{!Utf16.CasingLaws} (text query : Utf16.text) :
  Utf16.narrow text → Utf16.narrow query →
  Utf16.includes (Utf16.toLowerCase text) (Utf16.toLowerCase query) = true
  ↔ containsIgnoringCase text query.
Proof.
  intros Htext Hquery. rewrite !Utf16.toLowerCase_narrow by done.
  rewrite includes_spec. unfold containsIgnoringCase, containsUpTo. split.
  - intros (u & v & Huv).
    apply fmap_app_inv in Huv as (before & rest & _ & Hrest & ->).
    symmetry in Hrest. apply fmap_app_inv in Hrest as (occurrence & after & Hocc & _ & ->).
    exists before, occurrence, after. split; [done |].
    apply Forall_app in Htext as [_ [Hnarrow _]%Forall_app].
    by apply fmap_lowerUnit.
  - intros (before & occurrence & after & -> & Hocc).
    apply Forall_app in Htext as [_ [Hnarrow _]%Forall_app].
    apply fmap_lowerUnit in Hocc; [| done | done].
    exists (Utf16.lowerUnit <$> before), (Utf16.lowerUnit <$> after).
    by rewrite !fmap_app, Hocc.
Qed.

(** The reference lower-casing is the runtime's on text of the 8-bit
    range. *)
Lemma RefCasing_laws : @Utf16.CasingLaws RefCasing.casing.
Proof.
  split. intros s Hs. cbn. unfold RefCasing.toLowerCase. generalize false.
  induction Hs as [|u s Hu Hs IH]; intros before; [done |].
  cbn [RefCasing.lower fmap list_fmap]. rewrite IH.
  destruct (N.eqb_spec u 931) as [-> | _]; [lia |].
  unfold RefCasing.lowerUnits. apply N.ltb_lt in Hu. by rewrite Hu.
Qed.

(** C9: for every collection and every non-empty query whose text is of
    the 8-bit range (ASCII and Latin-1), the search view is exactly the
    tasks, in their order, whose titles contain the query with the case
    of letters disregarded; so when no title contains it, the view is the
    empty sequence. *)
Theorem search_results `{Utf16.Casing} `{!Utf16.CasingLaws}
    (searchQuery : Utf16.text) (tasks : list Wide.Task) :
  searchQuery ≠ [] →
  Utf16.narrow searchQuery →
  Forall (λ t, Utf16.narrow (Wide.title t)) tasks →
  (∀ dec : (∀ t, Decision (containsIgnoringCase (Wide.title t) searchQuery)),
     Wide.displayedTasks searchQuery tasks =
     filter (λ t, containsIgnoringCase (Wide.title t) searchQuery) tasks)
  ∧ ((∀ t, t ∈ tasks → ¬ containsIgnoringCase (Wide.title t) searchQuery) →
     Wide.displayedTasks searchQuery tasks = []).
Proof.
  intros Hquery Hnarrow Htitles. rewrite displayedTasks_search by done.
  assert (∀ t, t ∈ tasks →
            Utf16.includes (Utf16.toLowerCase (Wide.title t))
                           (Utf16.toLowerCase searchQuery) = true
            ↔ containsIgnoringCase (Wide.title t) searchQuery) as Hiff.
  { intros t Ht. apply includes_toLowerCase; [| done].
    by apply (proj1 (Forall_forall _ _) Htitles). }
  split.
  - intros dec. by apply filter_ext_in.
  - intros Hnone. apply filter_none.
    intros t Ht Hincludes%Hiff; [| done]. by apply (Hnone t).
Qed.

Lemma search_results_witness :
  @Wide.displayedTasks RefCasing.casing (Utf16.widen "tea") (widenTask <$> [report; milk]) = []
  ∧ (∀ dec : (∀ t, Decision (containsIgnoringCase (Wide.title t) (Utf16.widen "MILK"))),
       @Wide.displayedTasks RefCasing.casing (Utf16.widen "MILK") (widenTask <$> [report; milk]) =
       filter (λ t, containsIgnoringCase (Wide.title t) (Utf16.widen "MILK"))
              (widenTask <$> [report; milk])).
Proof.
  assert (Forall (λ t, Utf16.narrow (Wide.title t)) (widenTask <$> [report; milk])) as Htitles.
  { apply Forall_fmap, Forall_forall. intros t _. apply widen_narrow. }
  split.
  - apply (@search_results RefCasing.casing RefCasing_laws (Utf16.widen "tea")
             (widenTask <$> [report; milk]));
      [done | apply widen_narrow | done |].
    intros t Ht Hcontains.
    apply (@includes_toLowerCase RefCasing.casing RefCasing_laws) in Hcontains;
      [| by apply (proj1 (Forall_forall _ _) Htitles) | apply widen_narrow].
    cbn in Ht.
    repeat (apply elem_of_cons in Ht as [-> | Ht]; [by vm_compute in Hcontains |]).
    by apply elem_of_nil in Ht.
  - by apply (@search_results RefCasing.casing RefCasing_laws (Utf16.widen "MILK")
                (widenTask <$> [report; milk])); [| apply widen_narrow |].
Defined.

(** C9, as the specification words it, fails on text beyond the 8-bit
    range. Lower-casing turns the capital I with a dot above, U+0130,
    into two code units, so that a task with that one letter for a title
    is found by the query of those two, which no one-unit title contains,
    whichever letters are taken for the same. And it turns the capital
    sigma that ends a word into the final sigma but a capital sigma alone
    into the other one, so that a task whose title ends in a capital
    sigma is not found by the query of that very letter. *)
Lemma search_not_by_containment :
  (@Wide.displayedTasks RefCasing.casing [105; 775]%N [dotted] = [dotted]
   ∧ (∀ same : N → N → Prop, ¬ containsUpTo same (Wide.title dotted) [105; 775]%N)
   ∧ ¬ containsIgnoringCase (Wide.title dotted) [105; 775]%N)
  ∧ (@Wide.displayedTasks RefCasing.casing [931]%N [odos] = []
     ∧ containsUpTo eq (Wide.title odos) [931]%N
     ∧ containsIgnoringCase (Wide.title odos) [931]%N).
Proof.
  assert (∀ same : N → N → Prop, ¬ containsUpTo same (Wide.title dotted) [105; 775]%N) as Hnot.
  { intros same (before & occurrence & after & Htitle & Hocc).
    apply Forall2_length in Hocc. apply (f_equal length) in Htitle.
    rewrite !length_app in Htitle. cbn in Htitle, Hocc. lia. }
  split; [split; [by vm_compute | split; [done | apply Hnot]] |].
  split; [by vm_compute |].
  split; exists [927; 916; 927]%N, [931%N], []; (split; [done |]);
    repeat constructor.
Qed.

(** On the Home screen, whose text is of the 8-bit range, the view of a
    non-empty query is the tasks whose titles contain it, the case of
    letters disregarded. *)
Lemma HomeScreen_search_results `{Utf16.Casing} `{!Utf16.CasingLaws} (s : HomeScreen.State)
    `{∀ t, Decision (containsIgnoringCase (Utf16.widen (title t))
                       (Utf16.widen (HomeScreen.searchQuery s)))} :
  HomeScreen.searchQuery s ≠ "" →
  HomeScreen.displayedTasks s =
  filter (λ t, containsIgnoringCase (Utf16.widen (title t))
                 (Utf16.widen (HomeScreen.searchQuery s))) (HomeScreen.tasks s).
Proof.
  intros Hquery. unfold HomeScreen.displayedTasks. rewrite bool_decide_true.
  - apply list_filter_iff. intros t. apply includes_toLowerCase; apply widen_narrow.
  - destruct (HomeScreen.searchQuery s); [done | cbn; lia].
Qed.

Example search_milk :
  @HomeScreen.displayedTasks RefCasing.casing
    (HomeScreen.mkState [report; milk] [] "MILK" false) = [milk].
Proof. by vm_compute. Qed.

(** ** Progress *)

(** Without the guard the quotient of an empty collection would be
    not-a-number. *)
Example unguarded_progress_nan :
  PrimFloat.is_nan (number 0 / number 0 * 100)%float = true.
Proof. reflexivity. Qed.

Example progress_one_of_two :
  HomeScreen.progress (homeScreen [toggled (id report) report; milk]) = 50%float.
Proof. reflexivity. Qed.

(** C10: the completion percentage is defined for every collection: for
    the empty one it is the number 0 (and not the not-a-number of a
    division of zero by zero), and for a collection of [n > 0] tasks of
    which [c] are completed it is [(c / n) * 100], computed in
    double-precision arithmetic. *)
Theorem progress_total (s : HomeScreen.State) :
  let n := length (HomeScreen.tasks s) in
  let c := length (filter (λ t, completed t = true) (HomeScreen.tasks s)) in
  (n = 0 →
     HomeScreen.progress s = 0%float ∧ PrimFloat.is_nan (HomeScreen.progress s) = false)
  ∧ (0 < n → HomeScreen.progress s = (number c / number n * 100)%float).
Proof.
  intros n c. unfold HomeScreen.progress, HomeScreen.totalCount, HomeScreen.completedCount.
  fold n c. split; intros Hn.
  - rewrite bool_decide_false by lia. done.
  - by rewrite bool_decide_true.
Qed.

Lemma progress_total_witness :
  (HomeScreen.progress HomeScreen.initial = 0%float
   ∧ PrimFloat.is_nan (HomeScreen.progress HomeScreen.initial) = false)
  ∧ HomeScreen.progress (homeScreen [toggled (id report) report; milk; milk]) =
      (number 1 / number 3 * 100)%float.
Proof.
  split.
  - by apply (progress_total HomeScreen.initial).
  - apply (progress_total (homeScreen [toggled (id report) report; milk; milk])).
    cbn. lia.
Defined.

(** * Further properties of the code *)

(** ** What the handlers never do *)

Section Never.
Context `{Json}.

Lemma TasksScreen_saveTasks_normal wr ts σ : (TasksScreen.saveTasks wr ts σ).1 = Normal tt.
Proof. by destruct wr. Qed.

Lemma TasksScreen_loadTasks_normal rd σ : (TasksScreen.loadTasks rd σ).1 = Normal tt.
Proof.
  destruct σ as [s w]. destruct rd; [| done].
  rewrite TasksScreen_loadTasks_resolves.
  destruct (truthy _) as [text|]; [| done]. by destruct (JSON_parse text).
Qed.

Lemma HomeScreen_loadData_normal rd σ : (HomeScreen.loadData rd σ).1 = Normal tt.
Proof.
  destruct σ as [h w]. destruct rd; [| done].
  rewrite HomeScreen_loadData_resolves.
  destruct (truthy _) as [text|]; [| done]. by destruct (JSON_parse text).
Qed.

Lemma TasksScreen_deleteTask_normal answer wr id0 σ :
  (TasksScreen.deleteTask answer wr id0 σ).1 = Normal tt.
Proof.
  destruct σ as [s w]. destruct answer.
  - rewrite TasksScreen_deleteTask_confirmed. apply TasksScreen_saveTasks_normal.
  - by rewrite TasksScreen_deleteTask_cancelled.
Qed.

End Never.

(** X1: no handler of the two screens lets an error escape: whatever the
    store holds, however the storage promise settles and whatever
    [JSON.parse] does with the blob, each of them completes normally. *)
Theorem handlers_never_throw `{Json} :
  (∀ rd σ, (TasksScreen.loadTasks rd σ).1 = Normal tt)
  ∧ (∀ wr ts σ, (TasksScreen.saveTasks wr ts σ).1 = Normal tt)
  ∧ (∀ clock wr title category σ,
       (TasksScreen.handleAddTask clock wr title category σ).1 = Normal undefined)
  ∧ (∀ wr id0 σ, (TasksScreen.toggleTask wr id0 σ).1 = Normal tt)
  ∧ (∀ answer wr id0 σ, (TasksScreen.deleteTask answer wr id0 σ).1 = Normal tt)
  ∧ (∀ rd σ, (HomeScreen.loadData rd σ).1 = Normal tt)
  ∧ (∀ clock wr title category σ,
       (HomeScreen.handleAddTask clock wr title category σ).1 = Normal undefined)
  ∧ (∀ wr id0 σ, (HomeScreen.toggleTask wr id0 σ).1 = Normal tt).
Proof.
  repeat split.
  - apply TasksScreen_loadTasks_normal.
  - apply TasksScreen_saveTasks_normal.
  - intros clock [] title category σ; done.
  - intros [] id0 σ; done.
  - apply TasksScreen_deleteTask_normal.
  - apply HomeScreen_loadData_normal.
  - intros clock [] title category σ; done.
  - intros [] id0 σ; done.
Qed.

Lemma storage_written_other (key text : string) (w : World) :
  key ≠ "@sk_tasks" → storage (written text w) !! key = storage w !! key.
Proof. intros Hkey. unfold written; cbn. by rewrite lookup_insert_ne. Qed.

Section OtherKeys.
Context `{Json} (key : string) (Hkey : key ≠ "@sk_tasks").

Lemma TasksScreen_saveTasks_other wr ts σ :
  storage (TasksScreen.saveTasks wr ts σ).2.2 !! key = storage σ.2 !! key.
Proof.
  destruct σ as [s w]. destruct wr.
  - rewrite TasksScreen_saveTasks_resolves. by apply storage_written_other.
  - by rewrite TasksScreen_saveTasks_rejects.
Qed.

Lemma TasksScreen_loadTasks_storage rd σ :
  storage (TasksScreen.loadTasks rd σ).2.2 = storage σ.2.
Proof.
  destruct σ as [s w]. destruct rd; [| done].
  rewrite TasksScreen_loadTasks_resolves.
  destruct (truthy _) as [text|]; [| done]. by destruct (JSON_parse text).
Qed.

Lemma HomeScreen_loadData_storage rd σ :
  storage (HomeScreen.loadData rd σ).2.2 = storage σ.2.
Proof.
  destruct σ as [h w]. destruct rd; [| done].
  rewrite HomeScreen_loadData_resolves.
  destruct (truthy _) as [text|]; [| done]. by destruct (JSON_parse text).
Qed.

Lemma TasksScreen_deleteTask_other answer wr id0 σ :
  storage (TasksScreen.deleteTask answer wr id0 σ).2.2 !! key = storage σ.2 !! key.
Proof.
  destruct σ as [s w]. destruct answer.
  - rewrite TasksScreen_deleteTask_confirmed. by rewrite TasksScreen_saveTasks_other.
  - by rewrite TasksScreen_deleteTask_cancelled.
Qed.

Lemma HomeScreen_handleAddTask_other clock wr title category σ :
  storage (HomeScreen.handleAddTask clock wr title category σ).2.2 !! key = storage σ.2 !! key.
Proof.
  destruct σ as [h w]. destruct wr; [| done].
  by apply (storage_written_other key _ w).
Qed.

Lemma HomeScreen_toggleTask_other wr id0 σ :
  storage (HomeScreen.toggleTask wr id0 σ).2.2 !! key = storage σ.2 !! key.
Proof.
  destruct σ as [h w]. destruct wr; [| done].
  by apply (storage_written_other key _ w).
Qed.

End OtherKeys.

(** X2: the application owns one storage key: an item stored under any
    other key is never written or removed by a handler of either screen,
    and the two loads leave the whole store as it is. *)
Theorem other_keys_untouched `{Json} (key : string) :
  key ≠ "@sk_tasks" →
  (∀ wr ts σ, storage (TasksScreen.saveTasks wr ts σ).2.2 !! key = storage σ.2 !! key)
  ∧ (∀ clock wr title category σ,
       storage (TasksScreen.handleAddTask clock wr title category σ).2.2 !! key
       = storage σ.2 !! key)
  ∧ (∀ wr id0 σ, storage (TasksScreen.toggleTask wr id0 σ).2.2 !! key = storage σ.2 !! key)
  ∧ (∀ answer wr id0 σ,
       storage (TasksScreen.deleteTask answer wr id0 σ).2.2 !! key = storage σ.2 !! key)
  ∧ (∀ clock wr title category σ,
       storage (HomeScreen.handleAddTask clock wr title category σ).2.2 !! key
       = storage σ.2 !! key)
  ∧ (∀ wr id0 σ, storage (HomeScreen.toggleTask wr id0 σ).2.2 !! key = storage σ.2 !! key)
  ∧ (∀ rd σ, storage (TasksScreen.loadTasks rd σ).2.2 = storage σ.2)
  ∧ (∀ rd σ, storage (HomeScreen.loadData rd σ).2.2 = storage σ.2).
Proof.
  intros Hkey. repeat split.
  - by apply TasksScreen_saveTasks_other.
  - intros clock wr title category [s w].
    by rewrite <- (TasksScreen_saveTasks_other key Hkey wr
                     (newTask clock title category :: TasksScreen.tasks s) (s, w)); destruct wr.
  - intros wr id0 [s w].
    by rewrite <- (TasksScreen_saveTasks_other key Hkey wr
                     (toggled id0 <$> TasksScreen.tasks s) (s, w)); destruct wr.
  - by apply TasksScreen_deleteTask_other.
  - by apply HomeScreen_handleAddTask_other.
  - by apply HomeScreen_toggleTask_other.
  - apply TasksScreen_loadTasks_storage.
  - apply HomeScreen_loadData_storage.
Qed.

Lemma other_keys_untouched_witness :
  storage (@TasksScreen.handleAddTask RefJson.json clock1 Resolves "Buy milk" "Shopping"
             (TasksScreen.initial,
              mkWorld ios {["theme" := "dark"]} [] [])).2.2 !! "theme" = Some "dark".
Proof.
  pose proof (@other_keys_untouched RefJson.json "theme") as (_ & Hadd & _); [done |].
  rewrite Hadd. reflexivity.
Defined.

(** ** Memory and storage *)

Section Mirrors.
Context `{Json} `{!JsonLaws}.

Lemma mirrors_written (ts : list Task) (w : World) : mirrors ts (written (JSON_stringify ts) w).
Proof. unfold mirrors, blob, written; cbn. apply lookup_insert_eq. Qed.

Lemma truthy_mirrors (ts : list Task) (w : World) :
  mirrors ts w → truthy (blob w) = Some (JSON_stringify ts).
Proof.
  unfold mirrors. intros ->. cbn.
  rewrite bool_decide_false; [done | apply JSON_stringify_nonempty].
Qed.

Lemma TasksScreen_loadTasks_mirrors (ts : list Task) rd s w :
  mirrors ts w →
  TasksScreen.loadTasks rd (s, w) =
  match rd with
  | Resolves =>
      (Normal tt,
       (TasksScreen.mkState ts (TasksScreen.selectedCategory s) (TasksScreen.isModalVisible s), w))
  | Rejects => (Normal tt, (s, logged "Failed to load tasks" StorageError w))
  end.
Proof.
  intros Hw. destruct rd; [| done].
  by rewrite TasksScreen_loadTasks_resolves, (truthy_mirrors ts), JSON_parse_stringify.
Qed.

Lemma HomeScreen_loadData_mirrors (ts : list Task) h w :
  mirrors ts w →
  HomeScreen.loadData Resolves (h, w) =
  (Normal tt,
   (HomeScreen.mkState ts (HomeScreen.categoryCounts ts)
      (HomeScreen.searchQuery h) (HomeScreen.isModalVisible h), w)).
Proof.
  intros Hw.
  by rewrite HomeScreen_loadData_resolves, (truthy_mirrors ts), JSON_parse_stringify.
Qed.

Lemma TasksScreen_saveTasks_mirrors wr ts s w :
  mirrors (TasksScreen.tasks s) w →
  let σ := (TasksScreen.saveTasks wr ts (s, w)).2 in
  mirrors (TasksScreen.tasks σ.1) σ.2.
Proof.
  intros Hw. destruct wr.
  - rewrite TasksScreen_saveTasks_resolves. apply mirrors_written.
  - by rewrite TasksScreen_saveTasks_rejects.
Qed.

End Mirrors.

(** X3: on the Tasks screen memory and storage move together: once the
    blob holds the text of the collection in memory, it still does after
    any add, toggle or delete, whether the write succeeds or is rejected
    and whatever the user answers, and after any load; a reload then
    changes nothing in the collection. *)
Theorem tasks_screen_mirrors_storage `{Json} `{!JsonLaws} (s : TasksScreen.State) (w : World) :
  mirrors (TasksScreen.tasks s) w →
  (∀ clock wr title category,
     let σ := (TasksScreen.handleAddTask clock wr title category (s, w)).2 in
     mirrors (TasksScreen.tasks σ.1) σ.2)
  ∧ (∀ wr id0,
       let σ := (TasksScreen.toggleTask wr id0 (s, w)).2 in
       mirrors (TasksScreen.tasks σ.1) σ.2)
  ∧ (∀ answer wr id0,
       let σ := (TasksScreen.deleteTask answer wr id0 (s, w)).2 in
       mirrors (TasksScreen.tasks σ.1) σ.2)
  ∧ (∀ rd,
       let σ := (TasksScreen.loadTasks rd (s, w)).2 in
       TasksScreen.tasks σ.1 = TasksScreen.tasks s ∧ mirrors (TasksScreen.tasks σ.1) σ.2).
Proof.
  intros Hw. repeat split.
  - intros clock wr title category.
    pose proof (TasksScreen_saveTasks_mirrors wr
                  (newTask clock title category :: TasksScreen.tasks s) s w Hw) as Hsave.
    by destruct wr.
  - intros wr id0.
    pose proof (TasksScreen_saveTasks_mirrors wr (toggled id0 <$> TasksScreen.tasks s) s w Hw)
      as Hsave.
    by destruct wr.
  - intros [] wr id0.
    + rewrite TasksScreen_deleteTask_confirmed.
      by apply (TasksScreen_saveTasks_mirrors wr _ s (shown (deletePrompt (platform w)) w)).
    + by rewrite TasksScreen_deleteTask_cancelled.
  - by rewrite (TasksScreen_loadTasks_mirrors (TasksScreen.tasks s)); destruct rd.
  - by rewrite (TasksScreen_loadTasks_mirrors (TasksScreen.tasks s)); destruct rd.
Qed.

Lemma tasks_screen_mirrors_storage_witness :
  let w := written (RefJson.stringify [milk]) device in
  let σ := (@TasksScreen.toggleTask RefJson.json Rejects (id milk) (tasksScreen [milk], w)).2 in
  @mirrors RefJson.json (TasksScreen.tasks σ.1) σ.2.
Proof.
  intros w σ.
  apply (@tasks_screen_mirrors_storage RefJson.json RefJson_laws (tasksScreen [milk]) w).
  reflexivity.
Defined.

(** X4: what one screen has saved the other reads back: after an add on
    the Tasks screen whose write succeeded, a successful load of the Home
    screen shows the new task first, followed by the collection of the
    Tasks screen, with the category counts of that list; and likewise from
    the Home screen to the Tasks screen.  The collection the loading
    screen held before plays no part. *)
Theorem added_task_reaches_other_screen `{Json} `{!JsonLaws} (clock : Clock)
    (title category : string) (s : TasksScreen.State) (h : HomeScreen.State) (w : World) :
  let t := newTask clock title category in
  (let w' := (TasksScreen.handleAddTask clock Resolves title category (s, w)).2.2 in
   let h' := (HomeScreen.loadData Resolves (h, w')).2.1 in
   HomeScreen.tasks h' = t :: TasksScreen.tasks s
   ∧ HomeScreen.categories h' = HomeScreen.categoryCounts (t :: TasksScreen.tasks s))
  ∧ (let w' := (HomeScreen.handleAddTask clock Resolves title category (h, w)).2.2 in
     let s' := (TasksScreen.loadTasks Resolves (s, w')).2.1 in
     TasksScreen.tasks s' = t :: HomeScreen.tasks h).
Proof.
  intros t. split.
  - intros w' h'. subst w' h'.
    rewrite (HomeScreen_loadData_mirrors (t :: TasksScreen.tasks s)); [done |].
    apply mirrors_written.
  - intros w' s'. subst w' s'.
    rewrite (TasksScreen_loadTasks_mirrors (t :: HomeScreen.tasks h)); [done |].
    apply mirrors_written.
Qed.

Lemma added_task_reaches_other_screen_witness :
  let w' := (@TasksScreen.handleAddTask RefJson.json clock2 Resolves "Write report" "Work"
               (tasksScreen [milk], device)).2.2 in
  let h' := (@HomeScreen.loadData RefJson.json Resolves (HomeScreen.initial, w')).2.1 in
  HomeScreen.tasks h' = [report; milk].
Proof.
  intros w' h'.
  apply (@added_task_reaches_other_screen RefJson.json RefJson_laws clock2 "Write report" "Work"
           (tasksScreen [milk]) HomeScreen.initial device).
Defined.

Lemma HomeScreen_handleAddTask_eval `{Json} clock wr title category h w :
  HomeScreen.handleAddTask clock wr title category (h, w) =
  (Normal undefined,
   (HomeScreen.mkState (newTask clock title category :: HomeScreen.tasks h)
      ((λ cat, if bool_decide (Category.name cat = category)
               then Category.mk (Category.id cat) (Category.name cat) (Category.count cat + 1)
               else cat) <$> HomeScreen.categories h)
      (HomeScreen.searchQuery h) (HomeScreen.isModalVisible h),
    match wr with
    | Resolves =>
        written (JSON_stringify (newTask clock title category :: HomeScreen.tasks h)) w
    | Rejects => logged "Failed to save task" StorageError w
    end)).
Proof. by destruct wr. Qed.

Lemma HomeScreen_toggleTask_eval `{Json} wr id0 h w :
  HomeScreen.toggleTask wr id0 (h, w) =
  (Normal tt,
   (HomeScreen.mkState (toggled id0 <$> HomeScreen.tasks h)
      (HomeScreen.categoryCounts (toggled id0 <$> HomeScreen.tasks h))
      (HomeScreen.searchQuery h) (HomeScreen.isModalVisible h),
    match wr with
    | Resolves => written (JSON_stringify (toggled id0 <$> HomeScreen.tasks h)) w
    | Rejects => logged "Failed to save task" StorageError w
    end)).
Proof. by destruct wr. Qed.

(** X5: on the Home screen a change whose write is rejected lives in
    memory only: if the blob held the collection before, the next
    successful load brings that collection back, without the task just
    added, or with the toggled task as it was. *)
Theorem home_change_lost_when_write_fails `{Json} `{!JsonLaws} (h : HomeScreen.State)
    (w : World) :
  mirrors (HomeScreen.tasks h) w →
  (∀ clock title category,
     let σ := (HomeScreen.handleAddTask clock Rejects title category (h, w)).2 in
     HomeScreen.tasks σ.1 = newTask clock title category :: HomeScreen.tasks h
     ∧ HomeScreen.tasks (HomeScreen.loadData Resolves σ).2.1 = HomeScreen.tasks h)
  ∧ (∀ id0,
       let σ := (HomeScreen.toggleTask Rejects id0 (h, w)).2 in
       HomeScreen.tasks σ.1 = toggled id0 <$> HomeScreen.tasks h
       ∧ HomeScreen.tasks (HomeScreen.loadData Resolves σ).2.1 = HomeScreen.tasks h).
Proof.
  intros Hw. split.
  - intros clock title category σ. split; [done |]. subst σ.
    rewrite HomeScreen_handleAddTask_eval. cbn [snd].
    by rewrite (HomeScreen_loadData_mirrors (HomeScreen.tasks h)).
  - intros id0 σ. split; [done |]. subst σ.
    rewrite HomeScreen_toggleTask_eval. cbn [snd].
    by rewrite (HomeScreen_loadData_mirrors (HomeScreen.tasks h)).
Qed.

Lemma home_change_lost_when_write_fails_witness :
  let w := written (RefJson.stringify [milk]) device in
  let σ := (@HomeScreen.handleAddTask RefJson.json clock2 Rejects "Write report" "Work"
              (homeScreen [milk], w)).2 in
  HomeScreen.tasks σ.1 = [report; milk]
  ∧ HomeScreen.tasks (@HomeScreen.loadData RefJson.json Resolves σ).2.1 = [milk].
Proof.
  intros w σ.
  apply (@home_change_lost_when_write_fails RefJson.json RefJson_laws (homeScreen [milk]) w).
  reflexivity.
Defined.

(** ** Removing, further *)

Lemma filter_all {A} (P : A → Prop) `{∀ x, Decision (P x)} (l : list A) :
  (∀ x, x ∈ l → P x) → filter P l = l.
Proof.
  induction l as [|x l IH]; intros Hall; [done |].
  rewrite filter_cons_True by (apply Hall; by left).
  f_equal. apply IH. intros y Hy. apply Hall. by right.
Qed.

Lemma length_filter_unique (t : Task) (ts : list Task) :
  NoDup (id <$> ts) → t ∈ ts →
  length (filter (λ task, id task ≠ id t) ts) + 1 = length ts.
Proof.
  induction ts as [|t' ts IH]; intros Hids Ht; [by apply elem_of_nil in Ht |].
  cbn [fmap list_fmap] in Hids. apply NoDup_cons in Hids as [Hnew Hids].
  apply elem_of_cons in Ht as [<- | Ht].
  - rewrite filter_cons_False by (by intros Hne; apply Hne).
    rewrite filter_all; [cbn; lia |].
    intros t' Ht' Heq. apply Hnew. apply list_elem_of_fmap. by exists t'.
  - rewrite filter_cons_True.
    + cbn [length]. specialize (IH Hids Ht). lia.
    + intros Heq. apply Hnew. apply list_elem_of_fmap. by exists t.
Qed.

Section RemovingFurther.
Context `{Json}.

Lemma TasksScreen_deleteTask_tasks answer wr id0 s w :
  TasksScreen.tasks (TasksScreen.deleteTask answer wr id0 (s, w)).2.1 =
  match answer, wr with
  | true, Resolves => filter (λ task, id task ≠ id0) (TasksScreen.tasks s)
  | _, _ => TasksScreen.tasks s
  end.
Proof.
  destruct answer.
  - rewrite TasksScreen_deleteTask_confirmed. by destruct wr.
  - by rewrite TasksScreen_deleteTask_cancelled.
Qed.

Lemma TasksScreen_deleteTask_world answer wr id0 s w :
  (TasksScreen.deleteTask answer wr id0 (s, w)).2.2 =
  match answer, wr with
  | true, Resolves =>
      written (JSON_stringify (filter (λ task, id task ≠ id0) (TasksScreen.tasks s)))
        (shown (deletePrompt (platform w)) w)
  | true, Rejects =>
      logged "Failed to save tasks" StorageError (shown (deletePrompt (platform w)) w)
  | false, _ => shown (deletePrompt (platform w)) w
  end.
Proof.
  destruct answer.
  - rewrite TasksScreen_deleteTask_confirmed. by destruct wr.
  - by rewrite TasksScreen_deleteTask_cancelled.
Qed.

Lemma TasksScreen_handleAddTask_eval clock wr title category s w :
  TasksScreen.handleAddTask clock wr title category (s, w) =
  match wr with
  | Resolves =>
      (Normal undefined,
       (TasksScreen.mkState (newTask clock title category :: TasksScreen.tasks s)
          (TasksScreen.selectedCategory s) (TasksScreen.isModalVisible s),
        written (JSON_stringify (newTask clock title category :: TasksScreen.tasks s)) w))
  | Rejects => (Normal undefined, (s, logged "Failed to save tasks" StorageError w))
  end.
Proof. by destruct wr. Qed.

Lemma TasksScreen_toggleTask_eval wr id0 s w :
  TasksScreen.toggleTask wr id0 (s, w) =
  match wr with
  | Resolves =>
      (Normal tt,
       (TasksScreen.mkState (toggled id0 <$> TasksScreen.tasks s)
          (TasksScreen.selectedCategory s) (TasksScreen.isModalVisible s),
        written (JSON_stringify (toggled id0 <$> TasksScreen.tasks s)) w))
  | Rejects => (Normal tt, (s, logged "Failed to save tasks" StorageError w))
  end.
Proof. by destruct wr. Qed.

End RemovingFurther.

(** X6: [deleteTask] always asks first, and whatever the answer and the
    outcome of the write, it leaves the records of every other identifier
    in place and in order; unless the user confirms and the write
    succeeds, the collection and the blob stay exactly as they were; when
    both happen, no record of the identifier is left. *)
Theorem delete_frame `{Json} (answer : bool) (wr : settle) (id0 : string)
    (s : TasksScreen.State) (w : World) :
  let r := TasksScreen.deleteTask answer wr id0 (s, w) in
  dialogs r.2.2 = dialogs w ++ [deletePrompt (platform w)]
  ∧ filter (λ task, id task ≠ id0) (TasksScreen.tasks r.2.1)
    = filter (λ task, id task ≠ id0) (TasksScreen.tasks s)
  ∧ TasksScreen.tasks r.2.1 `sublist_of` TasksScreen.tasks s
  ∧ (answer = false ∨ wr = Rejects →
     TasksScreen.tasks r.2.1 = TasksScreen.tasks s ∧ blob r.2.2 = blob w)
  ∧ (answer = true → wr = Resolves → ∀ t, t ∈ TasksScreen.tasks r.2.1 → id t ≠ id0).
Proof.
  intros r. subst r.
  rewrite TasksScreen_deleteTask_tasks, TasksScreen_deleteTask_world.
  split; [| split; [| split; [| split]]].
  - by destruct answer, wr.
  - destruct answer, wr; try done.
    apply filter_all. intros t Ht. by apply list_elem_of_filter in Ht as [? _].
  - destruct answer, wr; try done. apply sublist_filter.
  - intros [-> | ->]; [done | by destruct answer].
  - intros -> -> t Ht. by apply list_elem_of_filter in Ht as [? _].
Qed.

Lemma delete_frame_witness :
  let r := @TasksScreen.deleteTask RefJson.json false Resolves (id milk)
             (tasksScreen [report; milk], device) in
  TasksScreen.tasks r.2.1 = [report; milk] ∧ blob r.2.2 = blob device.
Proof.
  intros r.
  apply (@delete_frame RefJson.json false Resolves (id milk) (tasksScreen [report; milk]) device).
  by left.
Defined.

(** X7: when the identifiers of the collection are pairwise different, a
    confirmed deletion whose write succeeds removes exactly one record:
    the collection is one shorter. *)
Theorem delete_one_of_unique `{Json} (t : Task) (s : TasksScreen.State) (w : World) :
  NoDup (id <$> TasksScreen.tasks s) →
  t ∈ TasksScreen.tasks s →
  let s' := (TasksScreen.deleteTask true Resolves (id t) (s, w)).2.1 in
  length (TasksScreen.tasks s') + 1 = length (TasksScreen.tasks s)
  ∧ t ∉ TasksScreen.tasks s'.
Proof.
  intros Hids Ht s'. subst s'. rewrite TasksScreen_deleteTask_tasks. split.
  - by apply length_filter_unique.
  - intros Hin. by apply list_elem_of_filter in Hin as [Hne _].
Qed.

Lemma delete_one_of_unique_witness :
  let s' := (@TasksScreen.deleteTask RefJson.json true Resolves (id milk)
               (tasksScreen [report; milk], device)).2.1 in
  length (TasksScreen.tasks s') + 1 = 2 ∧ milk ∉ TasksScreen.tasks s'.
Proof.
  intros s'.
  apply (@delete_one_of_unique RefJson.json milk (tasksScreen [report; milk]) device).
  - by apply (bool_decide_unpack _).
  - by apply (bool_decide_unpack _).
Defined.

(** X8: a task added at a reading whose identifier no record carries yet
    can be taken back: adding it and then deleting that identifier, both
    writes succeeding, gives back the collection and a blob holding its
    text. *)
Theorem add_then_delete_restores `{Json} (clock : Clock) (title category : string)
    (s : TasksScreen.State) (w : World) :
  (∀ t, t ∈ TasksScreen.tasks s → id t ≠ toString (now clock)) →
  let σ1 := (TasksScreen.handleAddTask clock Resolves title category (s, w)).2 in
  let σ2 := (TasksScreen.deleteTask true Resolves (toString (now clock)) σ1).2 in
  TasksScreen.tasks σ2.1 = TasksScreen.tasks s
  ∧ mirrors (TasksScreen.tasks s) σ2.2.
Proof.
  intros Hfresh σ1 σ2. subst σ1 σ2.
  assert (filter (λ task, id task ≠ toString (now clock))
                 (newTask clock title category :: TasksScreen.tasks s)
          = TasksScreen.tasks s) as Hfilter.
  { rewrite filter_cons_False by (by intros Hne; apply Hne).
    by apply filter_all. }
  rewrite TasksScreen_handleAddTask_eval. cbn [snd]. split.
  - rewrite TasksScreen_deleteTask_tasks. exact Hfilter.
  - rewrite TasksScreen_deleteTask_world. cbn [fst snd TasksScreen.tasks].
    rewrite Hfilter. unfold mirrors, blob, written; cbn. apply lookup_insert_eq.
Qed.

Lemma add_then_delete_restores_witness :
  let σ1 := (@TasksScreen.handleAddTask RefJson.json clock2 Resolves "Write report" "Work"
               (tasksScreen [milk], device)).2 in
  let σ2 := (@TasksScreen.deleteTask RefJson.json true Resolves (toString (now clock2)) σ1).2 in
  TasksScreen.tasks σ2.1 = [milk] ∧ @mirrors RefJson.json [milk] σ2.2.
Proof.
  intros σ1 σ2.
  apply (@add_then_delete_restores RefJson.json clock2 "Write report" "Work"
           (tasksScreen [milk]) device).
  intros t Ht. apply list_elem_of_singleton in Ht as ->. by vm_compute.
Defined.

(** ** Identifiers, further *)

Lemma toggled_ids (id0 : string) (ts : list Task) : id <$> (toggled id0 <$> ts) = id <$> ts.
Proof.
  rewrite <- list_fmap_compose. apply list_fmap_ext. intros i t _. cbn.
  apply toggled_frame.
Qed.

Lemma filter_ids (P : Task → Prop) `{∀ x, Decision (P x)} (ts : list Task) :
  NoDup (id <$> ts) → NoDup (id <$> filter P ts).
Proof.
  intros Hids. apply (sublist_NoDup _ _ Hids), fmap_sublist, sublist_filter.
Qed.

(** X9: toggling and deleting keep identifiers pairwise different: if no
    two records of the collection share an identifier before, none do
    after, on either screen, whatever the answer of the user and the
    outcome of the write. *)
Theorem unique_ids_preserved `{Json} (id0 : string) :
  (∀ wr s w,
     NoDup (id <$> TasksScreen.tasks s) →
     NoDup (id <$> TasksScreen.tasks (TasksScreen.toggleTask wr id0 (s, w)).2.1))
  ∧ (∀ answer wr s w,
       NoDup (id <$> TasksScreen.tasks s) →
       NoDup (id <$> TasksScreen.tasks (TasksScreen.deleteTask answer wr id0 (s, w)).2.1))
  ∧ (∀ wr h w,
       NoDup (id <$> HomeScreen.tasks h) →
       NoDup (id <$> HomeScreen.tasks (HomeScreen.toggleTask wr id0 (h, w)).2.1)).
Proof.
  repeat split.
  - intros wr s w Hids. rewrite TasksScreen_toggleTask_tasks.
    destruct wr; [by rewrite toggled_ids | done].
  - intros answer wr s w Hids. rewrite TasksScreen_deleteTask_tasks.
    destruct answer, wr; try done. by apply filter_ids.
  - intros wr h w Hids. rewrite HomeScreen_toggleTask_tasks. by rewrite toggled_ids.
Qed.

Lemma unique_ids_preserved_witness :
  NoDup (id <$> TasksScreen.tasks
                  (@TasksScreen.toggleTask RefJson.json Resolves (id milk)
                     (tasksScreen [report; milk], device)).2.1).
Proof.
  apply (@unique_ids_preserved RefJson.json (id milk)).
  by apply (bool_decide_unpack _).
Defined.

(** ** Counting *)

Lemma length_filter_disjoint {A} (P Q : A → Prop)
    `{∀ x, Decision (P x)} `{∀ x, Decision (Q x)} (l : list A) :
  (∀ x, P x → Q x → False) →
  length (filter P l) + length (filter Q l) = length (filter (λ x, P x ∨ Q x) l).
Proof.
  intros Hdisjoint. induction l as [|x l IH]; [done |].
  rewrite !filter_cons.
  destruct (decide (P x)) as [HP | HP], (decide (Q x)) as [HQ | HQ];
    [by destruct (Hdisjoint x) | | |].
  - rewrite decide_True by (by left). cbn [length]. lia.
  - rewrite decide_True by (by right). cbn [length]. lia.
  - rewrite decide_False by (by intros [|]). done.
Qed.

Lemma length_filter_le_implies {A} (P Q : A → Prop)
    `{∀ x, Decision (P x)} `{∀ x, Decision (Q x)} (l : list A) :
  (∀ x, P x → Q x) → length (filter P l) ≤ length (filter Q l).
Proof.
  intros Himpl. induction l as [|x l IH]; [done |].
  rewrite !filter_cons.
  destruct (decide (P x)) as [HP | HP].
  - rewrite decide_True by auto. cbn [length]. lia.
  - destruct (decide (Q x)); cbn [length]; lia.
Qed.

(** The tasks of the categories [names] that satisfy [R], counted
    category by category. *)
Lemma sum_by_category (R : Task → Prop) `{∀ t, Decision (R t)} (names : list string)
    (ts : list Task) :
  NoDup names →
  sum_list ((λ name, length (filter (λ t, category t = name ∧ R t) ts)) <$> names)
  = length (filter (λ t, category t ∈ names ∧ R t) ts).
Proof.
  induction 1 as [|name names Hname _ IH]; cbn [fmap list_fmap sum_list sum_list_with].
  - symmetry. apply length_zero_iff_nil, filter_none.
    intros t _ [Hin _]. by apply elem_of_nil in Hin.
  - change (sum_list_with (λ x, x) ?l) with (sum_list l). rewrite IH.
    unfold Datatypes.id.
    rewrite (length_filter_disjoint (λ t, category t = name ∧ R t)
                                    (λ t, category t ∈ names ∧ R t)).
    + f_equal. apply list_filter_iff. intros t. rewrite elem_of_cons. tauto.
    + intros t [<- _] [Hin _]. done.
Qed.

Lemma categoryCounts_counts (ts : list Task) :
  Category.count <$> HomeScreen.categoryCounts ts =
  (λ name, length (filter (λ t, category t = name ∧ completed t = false) ts))
    <$> HomeScreen.CATEGORY_NAMES.
Proof. reflexivity. Qed.

Lemma CATEGORY_NAMES_NoDup : NoDup HomeScreen.CATEGORY_NAMES.
Proof. by apply (bool_decide_unpack _). Qed.

(** X10: the counts on the category cards of the Home screen add up to
    the number of tasks not yet completed whose category is one of the
    four; so never to more than the "tasks remaining" of the Tasks screen
    for the same collection, and to exactly that number when every task
    has one of the four categories. *)
Theorem category_counts_sum (s : TasksScreen.State) :
  let shown := sum_list (Category.count <$> HomeScreen.categoryCounts (TasksScreen.tasks s)) in
  shown = length (filter (λ t, category t ∈ HomeScreen.CATEGORY_NAMES ∧ completed t = false)
                         (TasksScreen.tasks s))
  ∧ shown ≤ TasksScreen.activeCount s
  ∧ (Forall (λ t, category t ∈ HomeScreen.CATEGORY_NAMES) (TasksScreen.tasks s) →
     shown = TasksScreen.activeCount s).
Proof.
  intros shown. subst shown. rewrite categoryCounts_counts.
  rewrite (sum_by_category (λ t, completed t = false)) by apply CATEGORY_NAMES_NoDup.
  unfold TasksScreen.activeCount. split; [done | split].
  - apply length_filter_le_implies. by intros t [_ ?].
  - intros Hall. f_equal. apply filter_ext_in. intros t Ht.
    rewrite Forall_forall in Hall. specialize (Hall t Ht). cbn in Hall. tauto.
Qed.

Lemma category_counts_sum_witness :
  sum_list (Category.count <$> HomeScreen.categoryCounts [report; milk])
  = TasksScreen.activeCount (tasksScreen [report; milk]).
Proof.
  apply (category_counts_sum (tasksScreen [report; milk])).
  by apply (bool_decide_unpack _).
Defined.

(** X11: the two screens count the same collection consistently: the
    "tasks remaining" of the Tasks screen and the completed count of the
    Home screen add up to the size of the collection. *)
Theorem remaining_plus_completed (s : TasksScreen.State) (h : HomeScreen.State) :
  TasksScreen.tasks s = HomeScreen.tasks h →
  TasksScreen.activeCount s + HomeScreen.completedCount h = HomeScreen.totalCount h.
Proof.
  intros Hsame.
  unfold TasksScreen.activeCount, HomeScreen.completedCount, HomeScreen.totalCount.
  rewrite Hsame, length_filter_disjoint by (intros t ->; done).
  f_equal. apply filter_all. intros t _. destruct (completed t); auto.
Qed.

Lemma remaining_plus_completed_witness :
  TasksScreen.activeCount (tasksScreen [toggled (id report) report; milk])
  + HomeScreen.completedCount (homeScreen [toggled (id report) report; milk]) = 2.
Proof.
  by apply (remaining_plus_completed (tasksScreen [toggled (id report) report; milk])
              (homeScreen [toggled (id report) report; milk])).
Defined.

(** ** The category cards *)

Lemma count_cons_newTask (name : string) (clock : Clock) (entry chosen : string)
    (ts : list Task) :
  length (filter (λ t, category t = name ∧ completed t = false)
                 (newTask clock entry chosen :: ts))
  = if bool_decide (name = chosen)
    then length (filter (λ t, category t = name ∧ completed t = false) ts) + 1
    else length (filter (λ t, category t = name ∧ completed t = false) ts).
Proof.
  rewrite filter_cons. cbn [category completed newTask].
  case_bool_decide as Hname.
  - rewrite decide_True by done. cbn [length]. lia.
  - rewrite decide_False; [done |]. intros [Heq _]. by apply Hname.
Qed.

Lemma categoryCounts_cons_newTask (clock : Clock) (title category : string) (ts : list Task) :
  (λ cat, if bool_decide (Category.name cat = category)
          then Category.mk (Category.id cat) (Category.name cat) (Category.count cat + 1)
          else cat) <$> HomeScreen.categoryCounts ts
  = HomeScreen.categoryCounts (newTask clock title category :: ts).
Proof.
  unfold HomeScreen.categoryCounts. rewrite fmap_imap. apply imap_ext.
  intros i name _. unfold compose. cbn [Category.name Category.id Category.count].
  rewrite count_cons_newTask. by case_bool_decide.
Qed.

(** X12: the category cards follow the collection: if they show the
    counts of the collection, they still do after an add (which only bumps
    the card of the new task's category), after a toggle (which recounts)
    and after a load, failed or not; a toggle brings them in step
    whatever they showed.  Before the first successful load there are no
    cards, and an add makes none. *)
Theorem categories_in_sync `{Json} (h : HomeScreen.State) (w : World) :
  (∀ wr id0, inSync (HomeScreen.toggleTask wr id0 (h, w)).2.1)
  ∧ (inSync h →
     (∀ clock wr title category,
        inSync (HomeScreen.handleAddTask clock wr title category (h, w)).2.1)
     ∧ (∀ rd, inSync (HomeScreen.loadData rd (h, w)).2.1))
  ∧ (HomeScreen.categories h = [] →
     ∀ clock wr title category,
       HomeScreen.categories (HomeScreen.handleAddTask clock wr title category (h, w)).2.1 = []).
Proof.
  split; [| split].
  - intros wr id0. by rewrite HomeScreen_toggleTask_eval.
  - intros Hsync. split.
    + intros clock wr title category. rewrite HomeScreen_handleAddTask_eval.
      unfold inSync in *. cbn [fst snd HomeScreen.categories HomeScreen.tasks].
      rewrite Hsync. apply categoryCounts_cons_newTask.
    + intros [|]; [| done]. rewrite HomeScreen_loadData_resolves.
      destruct (truthy _) as [text|]; [| done]. by destruct (JSON_parse text).
  - intros Hnone clock wr title category. rewrite HomeScreen_handleAddTask_eval.
    cbn [fst snd HomeScreen.categories]. by rewrite Hnone.
Qed.

Lemma categories_in_sync_witness :
  inSync (@HomeScreen.handleAddTask RefJson.json clock2 Rejects "Write report" "Work"
            (homeScreen [milk], device)).2.1
  ∧ HomeScreen.categories
      (@HomeScreen.handleAddTask RefJson.json clock1 Resolves "Buy milk" "Shopping"
         (HomeScreen.initial, device)).2.1 = [].
Proof.
  split.
  - by apply (@categories_in_sync RefJson.json (homeScreen [milk]) device).
  - by apply (@categories_in_sync RefJson.json HomeScreen.initial device).
Defined.

(** ** The rows on screen *)

Lemma filter_fmap_same {A} (P : A → Prop) `{∀ x, Decision (P x)} (f : A → A) (l : list A) :
  (∀ x, P (f x) ↔ P x) → filter P (f <$> l) = f <$> filter P l.
Proof.
  intros Hiff. induction l as [|x l IH]; [done |].
  cbn [fmap list_fmap]. rewrite !filter_cons.
  destruct (decide (P x)) as [HP | HP].
  - rewrite decide_True by (by apply Hiff). cbn [fmap list_fmap]. by f_equal.
  - rewrite decide_False by (by rewrite Hiff). done.
Qed.

Lemma filter_sublist_implies {A} (P Q : A → Prop)
    `{∀ x, Decision (P x)} `{∀ x, Decision (Q x)} (l : list A) :
  (∀ x, P x → Q x) → filter P l `sublist_of` filter Q l.
Proof.
  intros Himpl. induction l as [|x l IH]; [done |].
  rewrite !filter_cons.
  destruct (decide (P x)) as [HP | HP].
  - rewrite decide_True by auto. by apply sublist_skip.
  - destruct (decide (Q x)); [by apply sublist_cons | done].
Qed.

Lemma toggled_title (id0 : string) (t : Task) : title (toggled id0 t) = title t.
Proof. apply toggled_frame. Qed.

Lemma toggled_category (id0 : string) (t : Task) :
  category (toggled id0 t) = category t.
Proof. apply toggled_frame. Qed.

Lemma filteredTasks_fmap_toggled (id0 : string) (ts : list Task) (c : string) (v : bool) :
  TasksScreen.filteredTasks (TasksScreen.mkState (toggled id0 <$> ts) c v)
  = toggled id0 <$> TasksScreen.filteredTasks (TasksScreen.mkState ts c v).
Proof.
  unfold TasksScreen.filteredTasks. cbn. case_bool_decide; [done |].
  apply filter_fmap_same. intros t. by rewrite toggled_category.
Qed.

Lemma displayedTasks_fmap_toggled `{Utf16.Casing} (id0 : string) (ts : list Task) cs q v :
  HomeScreen.displayedTasks (HomeScreen.mkState (toggled id0 <$> ts) cs q v)
  = toggled id0 <$> HomeScreen.displayedTasks
                      (HomeScreen.mkState ts (HomeScreen.categoryCounts ts) q v).
Proof.
  unfold HomeScreen.displayedTasks. cbn. case_bool_decide.
  - apply filter_fmap_same. intros t. by rewrite toggled_title.
  - by rewrite fmap_take.
Qed.

(** X13: a toggle moves no row: the list each screen displays after it
    (the filtered view of the Tasks screen, the search results or recent
    tasks of the Home screen) is the list displayed before with the
    matching records flipped, same rows in the same order; on the Tasks
    screen a rejected write leaves the rows as they were. *)
Theorem toggle_keeps_rows `{Json} `{Utf16.Casing} (wr : settle) (id0 : string) :
  (∀ s w,
     TasksScreen.filteredTasks (TasksScreen.toggleTask wr id0 (s, w)).2.1
     = match wr with
       | Resolves => toggled id0 <$> TasksScreen.filteredTasks s
       | Rejects => TasksScreen.filteredTasks s
       end)
  ∧ (∀ h w,
       HomeScreen.displayedTasks (HomeScreen.toggleTask wr id0 (h, w)).2.1
       = toggled id0 <$> HomeScreen.displayedTasks h).
Proof.
  split.
  - intros [ts c v] w. rewrite TasksScreen_toggleTask_eval.
    destruct wr; [| done]. apply filteredTasks_fmap_toggled.
  - intros [ts cs q v] w. rewrite HomeScreen_toggleTask_eval. cbn [fst snd].
    by rewrite displayedTasks_fmap_toggled.
Qed.

(** X14: with the search box empty the Home screen lists the five tasks
    at the head of the collection, and a task just added is the first of
    them, whether or not its write succeeded. *)
Theorem added_task_is_most_recent `{Json} `{Utf16.Casing} (clock : Clock) (wr : settle)
    (title category : string) (h : HomeScreen.State) (w : World) :
  HomeScreen.searchQuery h = "" →
  HomeScreen.displayedTasks h = take 5 (HomeScreen.tasks h)
  ∧ HomeScreen.displayedTasks (HomeScreen.handleAddTask clock wr title category (h, w)).2.1
    = newTask clock title category :: take 4 (HomeScreen.tasks h).
Proof.
  intros Hquery. rewrite HomeScreen_handleAddTask_eval.
  unfold HomeScreen.displayedTasks. cbn [fst snd HomeScreen.searchQuery HomeScreen.tasks].
  by rewrite Hquery.
Qed.

Lemma added_task_is_most_recent_witness :
  @HomeScreen.displayedTasks RefCasing.casing
    (@HomeScreen.handleAddTask RefJson.json clock2 Rejects "Write report" "Work"
       (homeScreen [milk; milk; milk; milk; milk], device)).2.1
  = [report; milk; milk; milk; milk].
Proof.
  by apply (@added_task_is_most_recent RefJson.json RefCasing.casing clock2 Rejects "Write report" "Work"
              (homeScreen [milk; milk; milk; milk; milk]) device).
Defined.

(** X15: the chips of the Tasks screen split the collection: "All" shows
    all of it, and when every task has one of the four categories of the
    form, the four category views have, between them, as many rows as the
    collection has tasks. *)
Theorem filtered_views (s : TasksScreen.State) :
  TasksScreen.filteredTasks (filtering "All" s) = TasksScreen.tasks s
  ∧ (Forall (λ t, category t ∈ AddTaskModal.CATEGORIES) (TasksScreen.tasks s) →
     sum_list ((λ c, length (TasksScreen.filteredTasks (filtering c s)))
                 <$> AddTaskModal.CATEGORIES)
     = length (TasksScreen.tasks s)).
Proof.
  split; [done |]. intros Hall.
  transitivity (sum_list ((λ name, length (filter (λ t, category t = name ∧ True)
                                                  (TasksScreen.tasks s)))
                            <$> AddTaskModal.CATEGORIES)).
  - unfold AddTaskModal.CATEGORIES, TasksScreen.filteredTasks, filtering.
    cbn [fmap list_fmap fst snd setState TasksScreen.setSelectedCategory
         TasksScreen.selectedCategory TasksScreen.tasks].
    rewrite !bool_decide_false by done.
    repeat f_equal; apply list_filter_iff; tauto.
  - rewrite (sum_by_category (λ _, True)) by (by apply (bool_decide_unpack _)).
    f_equal. apply filter_all. intros t Ht. rewrite Forall_forall in Hall.
    split; [by apply Hall | done].
Qed.

Lemma filtered_views_witness :
  sum_list ((λ c, length (TasksScreen.filteredTasks (filtering c (tasksScreen [report; milk]))))
              <$> AddTaskModal.CATEGORIES) = 2.
Proof.
  apply (filtered_views (tasksScreen [report; milk])).
  by apply (bool_decide_unpack _).
Defined.

(** ** Searching, further *)

Lemma startsWith_refl (s : Utf16.text) : Utf16.startsWith s s = true.
Proof. induction s as [|c s IH]; cbn; [done | by rewrite N.eqb_refl]. Qed.

Lemma includes_refl (s : Utf16.text) : Utf16.includes s s = true.
Proof. destruct s; cbn [Utf16.includes]; by rewrite startsWith_refl. Qed.

Lemma includes_prefix (s q r : Utf16.text) :
  Utf16.includes s (q ++ r) = true → Utf16.includes s q = true.
Proof.
  rewrite !includes_spec. intros (before & after & ->).
  exists before, (r ++ after). by rewrite <- (assoc_L (++)).
Qed.

Lemma displayedTasks_searching `{Utf16.Casing} (q : string) (h : HomeScreen.State) :
  0 < String.length q →
  HomeScreen.displayedTasks (searching q h)
  = filter (λ t, Utf16.includes (Utf16.toLowerCase (Utf16.widen (title t)))
                                (Utf16.toLowerCase (Utf16.widen q)) = true)
           (HomeScreen.tasks h).
Proof.
  intros Hq. unfold HomeScreen.displayedTasks, searching. cbn.
  by rewrite bool_decide_true.
Qed.

(** X16: typing on narrows the search, for a query of the 8-bit range
    (ASCII and Latin-1) extended by further characters of that range:
    the results for the longer query are among the results for the
    shorter one, in the same order, whatever the titles are. *)
Theorem search_narrows `{Utf16.Casing} `{!Utf16.CasingLaws}
    (q r : Utf16.text) (tasks : list Wide.Task) :
  q ≠ [] → Utf16.narrow q → Utf16.narrow r →
  Wide.displayedTasks (q ++ r) tasks `sublist_of` Wide.displayedTasks q tasks.
Proof.
  intros Hq Hnarrow Hr. rewrite !displayedTasks_search; [| done | by destruct q].
  apply filter_sublist_implies. intros t.
  rewrite (Utf16.toLowerCase_narrow (q ++ r)) by (by apply Forall_app).
  rewrite (Utf16.toLowerCase_narrow q), fmap_app by done.
  apply includes_prefix.
Qed.

Lemma search_narrows_witness :
  @Wide.displayedTasks RefCasing.casing (Utf16.widen "m" ++ Utf16.widen "il")
    (dotted :: (widenTask <$> [report; milk]))
  `sublist_of`
  @Wide.displayedTasks RefCasing.casing (Utf16.widen "m")
    (dotted :: (widenTask <$> [report; milk])).
Proof.
  by apply (@search_narrows RefCasing.casing RefCasing_laws (Utf16.widen "m") (Utf16.widen "il"));
    [| apply widen_narrow | apply widen_narrow].
Defined.

(** X17: in a query of the 8-bit range (ASCII and Latin-1) the case of
    the letters does not matter: two such queries that differ in the case
    of their letters only give the same list, whatever the titles are. *)
Theorem search_ignores_query_case `{Utf16.Casing} `{!Utf16.CasingLaws}
    (q q' : Utf16.text) (tasks : list Wide.Task) :
  Utf16.narrow q → Utf16.narrow q' →
  equalIgnoringCase q q' →
  Wide.displayedTasks q tasks = Wide.displayedTasks q' tasks.
Proof.
  intros Hq Hq' Hqq'. pose proof (Forall2_length _ _ _ Hqq') as Hlen.
  apply fmap_lowerUnit in Hqq'; [| done | done].
  unfold Wide.displayedTasks.
  rewrite (Utf16.toLowerCase_narrow q), (Utf16.toLowerCase_narrow q') by done.
  by rewrite Hlen, Hqq'.
Qed.

Lemma search_ignores_query_case_witness :
  @Wide.displayedTasks RefCasing.casing (Utf16.widen "MILK")
    (dotted :: (widenTask <$> [report; milk]))
  = @Wide.displayedTasks RefCasing.casing (Utf16.widen "milk")
      (dotted :: (widenTask <$> [report; milk])).
Proof.
  apply (@search_ignores_query_case RefCasing.casing RefCasing_laws
           (Utf16.widen "MILK") (Utf16.widen "milk"));
    [apply widen_narrow | apply widen_narrow |].
  unfold equalIgnoringCase. apply (bool_decide_unpack _). by vm_compute.
Defined.

(** ** Titles *)

Lemma trimStart_empty_iff (s : string) : JsString.trimStart s = "" ↔ isBlank s = true.
Proof.
  induction s as [|c s IH]; cbn; [done |].
  destruct (JsString.isWhiteSpace c); cbn; [done |]. split; discriminate.
Qed.

Lemma isBlank_trimStart (s : string) : isBlank (JsString.trimStart s) = isBlank s.
Proof.
  induction s as [|c s IH]; cbn; [done |].
  destruct (JsString.isWhiteSpace c) eqn:Hc; cbn; [done | by rewrite Hc].
Qed.

Lemma trimEnd_empty_iff (s : string) : JsString.trimEnd s = "" ↔ isBlank s = true.
Proof.
  induction s as [|c s IH]; cbn; [done |].
  destruct (JsString.trimEnd s) as [|d r].
  - destruct (JsString.isWhiteSpace c); cbn.
    + by rewrite <- IH.
    + split; discriminate.
  - split; [discriminate |]. intros [_ Hs]%andb_true_iff. by apply IH in Hs.
Qed.

Lemma trim_empty_iff (s : string) : JsString.trim s = "" ↔ isBlank s = true.
Proof. unfold JsString.trim. by rewrite trimEnd_empty_iff, isBlank_trimStart. Qed.

Lemma firstCode_trimStart (s : string) (c : ascii) :
  firstCode (JsString.trimStart s) = Some c → JsString.isWhiteSpace c = false.
Proof.
  induction s as [|d s IH]; cbn; [done |].
  destruct (JsString.isWhiteSpace d) eqn:Hd; [done |]. cbn. by intros [= <-].
Qed.

Lemma firstCode_trimEnd (s : string) (c : ascii) :
  firstCode (JsString.trimEnd s) = Some c → firstCode s = Some c.
Proof.
  destruct s as [|d s]; cbn; [done |].
  destruct (JsString.trimEnd s); [| done].
  by destruct (JsString.isWhiteSpace d).
Qed.

Lemma lastCode_trimEnd (s : string) (c : ascii) :
  lastCode (JsString.trimEnd s) = Some c → JsString.isWhiteSpace c = false.
Proof.
  induction s as [|d s IH]; cbn; [done |].
  destruct (JsString.trimEnd s) as [|e r].
  - destruct (JsString.isWhiteSpace d) eqn:Hd; cbn; [done | by intros [= <-]].
  - done.
Qed.

Lemma trimStart_fixed (s : string) :
  (∀ c, firstCode s = Some c → JsString.isWhiteSpace c = false) → JsString.trimStart s = s.
Proof. destruct s as [|d s]; cbn; [done |]. intros Hd. by rewrite (Hd d). Qed.

Lemma trimEnd_cons (c : ascii) (s : string) :
  JsString.trimEnd (String c s) =
  match JsString.trimEnd s with
  | EmptyString => if JsString.isWhiteSpace c then EmptyString else String c EmptyString
  | String d r => String c (String d r)
  end.
Proof. reflexivity. Qed.

Lemma trimEnd_idempotent (s : string) :
  JsString.trimEnd (JsString.trimEnd s) = JsString.trimEnd s.
Proof.
  induction s as [|c s IH]; [done |].
  rewrite (trimEnd_cons c s). destruct (JsString.trimEnd s) as [|d r] eqn:Hs.
  - destruct (JsString.isWhiteSpace c) eqn:Hc; [done |].
    rewrite trimEnd_cons. cbn. by rewrite Hc.
  - by rewrite trimEnd_cons, IH.
Qed.

Lemma trim_idempotent (s : string) : JsString.trim (JsString.trim s) = JsString.trim s.
Proof.
  unfold JsString.trim.
  rewrite (trimStart_fixed (JsString.trimEnd _)); [apply trimEnd_idempotent |].
  intros c Hc%firstCode_trimEnd. by apply firstCode_trimStart in Hc.
Qed.

(** X18: the form turns away exactly the blank titles: when every code
    unit of the entry is white space (or there is none) the submission
    only raises the alert, and screen, store and form stay as they were;
    for any other entry no alert appears, the form is cleared and the
    modal closed. *)
Theorem rejected_iff_blank `{Json} (m : AddTaskModal.State) (clock : Clock) (wr : settle) :
  (∀ s w,
     let r := AddTaskModal.handleAddTask (TasksScreen_modal clock wr s) ((m, s), w) in
     if isBlank (AddTaskModal.newTaskTitle m)
     then r.2 = ((m, s), shown (emptyTitleAlert (platform w)) w)
     else dialogs r.2.2 = dialogs w
          ∧ AddTaskModal.newTaskTitle r.2.1.1 = ""
          ∧ TasksScreen.isModalVisible r.2.1.2 = false)
  ∧ (∀ h w,
       let r := AddTaskModal.handleAddTask (HomeScreen_modal clock wr h) ((m, h), w) in
       if isBlank (AddTaskModal.newTaskTitle m)
       then r.2 = ((m, h), shown (emptyTitleAlert (platform w)) w)
       else dialogs r.2.2 = dialogs w
            ∧ AddTaskModal.newTaskTitle r.2.1.1 = ""
            ∧ HomeScreen.isModalVisible r.2.1.2 = false).
Proof.
  split; intros s w r; subst r;
    destruct (isBlank (AddTaskModal.newTaskTitle m)) eqn:Hblank.
  - by rewrite AddTaskModal_handleAddTask_empty by (by apply trim_empty_iff).
  - rewrite AddTaskModal_handleAddTask_entered by (by rewrite trim_empty_iff, Hblank).
    by destruct wr.
  - by rewrite AddTaskModal_handleAddTask_empty by (by apply trim_empty_iff).
  - rewrite AddTaskModal_handleAddTask_entered by (by rewrite trim_empty_iff, Hblank).
    by destruct wr.
Qed.

(** X19: the title a task is created with is never blank at either end:
    for an entry that is not blank, the stored title is not empty, neither
    begins nor ends with white space, and entering it again would store
    the same title. *)
Theorem stored_title_trimmed (clock : Clock) (entry category : string) :
  isBlank entry = false →
  let t := newTask clock entry category in
  title t ≠ ""
  ∧ (∀ c, firstCode (title t) = Some c → JsString.isWhiteSpace c = false)
  ∧ (∀ c, lastCode (title t) = Some c → JsString.isWhiteSpace c = false)
  ∧ title (newTask clock (title t) category) = title t.
Proof.
  intros Hentry t. subst t. cbn [title newTask]. split; [| split; [| split]].
  - rewrite trim_empty_iff. by rewrite Hentry.
  - intros c Hc%firstCode_trimEnd. by apply firstCode_trimStart in Hc.
  - intros c. apply lastCode_trimEnd.
  - apply trim_idempotent.
Qed.

Lemma stored_title_trimmed_witness :
  title (newTask clock1 "  Buy milk " "Shopping") ≠ ""
  ∧ (∀ c, firstCode (title (newTask clock1 "  Buy milk " "Shopping")) = Some c →
          JsString.isWhiteSpace c = false)
  ∧ (∀ c, lastCode (title (newTask clock1 "  Buy milk " "Shopping")) = Some c →
          JsString.isWhiteSpace c = false)
  ∧ title (newTask clock1 (title (newTask clock1 "  Buy milk " "Shopping")) "Shopping")
    = title (newTask clock1 "  Buy milk " "Shopping").
Proof. by apply (stored_title_trimmed clock1 "  Buy milk " "Shopping"). Defined.

(** X20: a task added on the Home screen is found by its own title, for
    text of the 8-bit range (ASCII and Latin-1): for an entry that is not
    blank, searching for the trimmed entry, in any case of letters, lists
    the new task first. *)
Theorem search_finds_added `{Json} `{Utf16.Casing} `{!Utf16.CasingLaws}
    (clock : Clock) (wr : settle) (entry category q : string)
    (h : HomeScreen.State) (w : World) :
  isBlank entry = false →
  equalIgnoringCase (Utf16.widen q) (Utf16.widen (JsString.trim entry)) →
  let h' := (HomeScreen.handleAddTask clock wr entry category (h, w)).2.1 in
  head (HomeScreen.displayedTasks (searching q h')) = Some (newTask clock entry category).
Proof.
  intros Hentry Hq h'. subst h'. rewrite HomeScreen_handleAddTask_eval. cbn [fst snd].
  assert (0 < String.length q) as Hne.
  { apply Forall2_length in Hq. rewrite !length_widen in Hq.
    destruct (String.length q) eqn:Hlen; [| lia]. symmetry in Hq.
    apply length_zero, trim_empty_iff in Hq. congruence. }
  rewrite displayedTasks_searching by done. cbn [HomeScreen.tasks].
  rewrite filter_cons_True; [done |]. cbn [title newTask].
  rewrite !Utf16.toLowerCase_narrow by apply widen_narrow.
  apply fmap_lowerUnit in Hq; [| apply widen_narrow | apply widen_narrow].
  rewrite Hq. apply includes_refl.
Qed.

Lemma search_finds_added_witness :
  let h' := (@HomeScreen.handleAddTask RefJson.json clock1 Resolves "  Buy milk " "Shopping"
               (homeScreen [report], device)).2.1 in
  head (@HomeScreen.displayedTasks RefCasing.casing (searching "BUY MILK" h')) = Some milk.
Proof.
  intros h'.
  apply (@search_finds_added RefJson.json RefCasing.casing RefCasing_laws
           clock1 Resolves "  Buy milk " "Shopping" "BUY MILK" (homeScreen [report]) device).
  - reflexivity.
  - unfold equalIgnoringCase. apply (bool_decide_unpack _). by vm_compute.
Defined.

(** ** The application as a whole *)

Example session_example :
  let σ := @run RefJson.json RefCasing.casing session (installed ios) in
  TasksScreen.tasks (onTasks σ.1) = [toggled (id milk) milk]
  ∧ @HomeScreen.displayedTasks RefCasing.casing (onHome σ.1) = [toggled (id milk) milk]
  ∧ tasksForm σ.1 = AddTaskModal.mkState "" "Shopping"
  ∧ blob σ.2 = Some (RefJson.stringify [toggled (id milk) milk]).
Proof. by vm_compute. Qed.

Lemma wellFormed_toggled (id0 : string) (t : Task) : wellFormed t → wellFormed (toggled id0 t).
Proof. unfold wellFormed. by rewrite toggled_title, toggled_category. Qed.

Lemma wellFormed_newTask (clock : Clock) (entry chosen : string) :
  isBlank entry = false → chosen ∈ AddTaskModal.CATEGORIES →
  wellFormed (newTask clock entry chosen).
Proof.
  intros Hentry Hchosen. unfold wellFormed. cbn [title category newTask].
  split; [| split; [apply trim_idempotent | done]].
  destruct (isBlank (JsString.trim entry)) eqn:Hblank; [| done].
  apply trim_empty_iff in Hblank. rewrite trim_idempotent in Hblank.
  apply trim_empty_iff in Hblank. congruence.
Qed.

Lemma Forall_filter_keep {A} (P Q : A → Prop) `{∀ x, Decision (P x)} (l : list A) :
  Forall Q l → Forall Q (filter P l).
Proof.
  rewrite !Forall_forall. intros Hl x Hx. apply Hl.
  by apply list_elem_of_filter in Hx as [_ ?].
Qed.

Section Sound.
Context `{Json} `{!JsonLaws} `{Utf16.Casing}.

Lemma storeSound_logged message e w : storeSound w → storeSound (logged message e w).
Proof. done. Qed.

Lemma storeSound_shown d w : storeSound w → storeSound (shown d w).
Proof. done. Qed.

Lemma storeSound_written ts w : Forall wellFormed ts → storeSound (written (JSON_stringify ts) w).
Proof. intros Hts. right. exists ts. split; [apply mirrors_written | done]. Qed.

(** What a load puts in memory is well formed, when the store is sound. *)
Lemma loaded_wellFormed w text ts :
  storeSound w → truthy (blob w) = Some text → JSON_parse text = Some ts →
  Forall wellFormed ts.
Proof.
  intros [Hnone | (ts' & Hts' & Hwf)] Htext Hparse.
  - by rewrite Hnone in Htext.
  - rewrite (truthy_mirrors ts') in Htext by done. injection Htext as <-.
    rewrite JSON_parse_stringify in Hparse. by injection Hparse as <-.
Qed.

Lemma keeps_loadTasks rd : keeps tasksSound (TasksScreen.loadTasks rd).
Proof.
  intros s w [Hs Hc] Hw. destruct rd; [| done].
  rewrite TasksScreen_loadTasks_resolves.
  destruct (truthy (blob w)) as [text|] eqn:Htext; [| done].
  destruct (JSON_parse text) as [ts|] eqn:Hparse; [| done].
  split; [| done]. split; [| done]. by eapply loaded_wellFormed.
Qed.

Lemma keeps_loadData rd : keeps homeSound (HomeScreen.loadData rd).
Proof.
  intros h w Hh Hw. destruct rd; [| done].
  rewrite HomeScreen_loadData_resolves.
  destruct (truthy (blob w)) as [text|] eqn:Htext; [| by split; [constructor |]].
  destruct (JSON_parse text) as [ts|] eqn:Hparse; [| done].
  split; [| done]. by eapply loaded_wellFormed.
Qed.

Lemma keeps_saveTasks wr ts :
  Forall wellFormed ts → keeps tasksSound (TasksScreen.saveTasks wr ts).
Proof.
  intros Hts s w [Hs Hc] Hw. destruct wr.
  - rewrite TasksScreen_saveTasks_resolves. split; [done |]. by apply storeSound_written.
  - by rewrite TasksScreen_saveTasks_rejects.
Qed.

Lemma keeps_TasksScreen_handleAddTask clock wr entry chosen :
  isBlank entry = false → chosen ∈ AddTaskModal.CATEGORIES →
  keeps tasksSound (TasksScreen.handleAddTask clock wr entry chosen).
Proof.
  intros Hentry Hchosen s w [Hs Hc] Hw. rewrite TasksScreen_handleAddTask_eval.
  destruct wr; [| done].
  assert (Forall wellFormed (newTask clock entry chosen :: TasksScreen.tasks s))
    by (constructor; [by apply wellFormed_newTask | done]).
  split; [done |]. by apply storeSound_written.
Qed.

Lemma keeps_TasksScreen_toggleTask wr id0 : keeps tasksSound (TasksScreen.toggleTask wr id0).
Proof.
  intros s w [Hs Hc] Hw. rewrite TasksScreen_toggleTask_eval. destruct wr; [| done].
  assert (Forall wellFormed (toggled id0 <$> TasksScreen.tasks s)).
  { apply Forall_fmap. eapply Forall_impl; [done |]. intros t. apply wellFormed_toggled. }
  split; [done |]. by apply storeSound_written.
Qed.

Lemma keeps_deleteTask answer wr id0 : keeps tasksSound (TasksScreen.deleteTask answer wr id0).
Proof.
  intros s w [Hs Hc] Hw. destruct answer.
  - rewrite TasksScreen_deleteTask_confirmed.
    apply keeps_saveTasks; [by apply Forall_filter_keep | done | by apply storeSound_shown].
  - by rewrite TasksScreen_deleteTask_cancelled.
Qed.

Lemma keeps_HomeScreen_handleAddTask clock wr entry chosen :
  isBlank entry = false → chosen ∈ AddTaskModal.CATEGORIES →
  keeps homeSound (HomeScreen.handleAddTask clock wr entry chosen).
Proof.
  intros Hentry Hchosen h w Hh Hw. rewrite HomeScreen_handleAddTask_eval.
  assert (Forall wellFormed (newTask clock entry chosen :: HomeScreen.tasks h))
    by (constructor; [by apply wellFormed_newTask | done]).
  split; [done |]. destruct wr; [by apply storeSound_written | done].
Qed.

Lemma keeps_HomeScreen_toggleTask wr id0 : keeps homeSound (HomeScreen.toggleTask wr id0).
Proof.
  intros h w Hh Hw. rewrite HomeScreen_toggleTask_eval.
  assert (Forall wellFormed (toggled id0 <$> HomeScreen.tasks h)).
  { apply Forall_fmap. eapply Forall_impl; [done |]. intros t. apply wellFormed_toggled. }
  split; [done |]. destruct wr; [by apply storeSound_written | done].
Qed.

(** The form keeps its own invariant and that of its screen, when the
    two callbacks it is given do. *)
Lemma keeps_handleForm {P} (I : P → Prop) (props : AddTaskModal.Props P) (e : formEvent) :
  keeps I (AddTaskModal.onClose props) →
  (∀ entry chosen,
     isBlank entry = false → chosen ∈ AddTaskModal.CATEGORIES →
     keeps I (AddTaskModal.onAddTask props entry chosen)) →
  (∀ entry chosen σ, ∃ v, (AddTaskModal.onAddTask props entry chosen σ).1 = Normal v) →
  keeps (λ mp, formSound mp.1 ∧ I mp.2) (handleForm props e).
Proof.
  intros Hclose Hadd Hnormal [m p] w [Hm Hp] Hw. cbn [fst snd] in Hm, Hp.
  destruct e as [text | i | |]; cbn [handleForm].
  - done.
  - destruct (AddTaskModal.CATEGORIES !! i) as [cat|] eqn:Hcat; [| done].
    split; [| done]. split; [| done]. by eapply list_elem_of_lookup_2.
  - destruct (isBlank (AddTaskModal.newTaskTitle m)) eqn:Hblank.
    + by rewrite AddTaskModal_handleAddTask_empty by (by apply trim_empty_iff).
    + rewrite AddTaskModal_handleAddTask_entered by (by rewrite trim_empty_iff, Hblank).
      destruct (Hadd _ _ Hblank Hm p w Hp Hw) as [Hp1 Hw1].
      destruct (Hnormal (AddTaskModal.newTaskTitle m) (AddTaskModal.newTaskCategory m) (p, w))
        as [v Hv].
      unfold mbind, Eff_bind, AddTaskModal.parent, AddTaskModal.setNewTaskTitle, setState.
      cbn [fst snd].
      destruct (AddTaskModal.onAddTask props _ _ (p, w)) as [r1 [p1 w1]].
      cbn [fst snd] in *. subst r1.
      destruct (Hclose p1 w1 Hp1 Hw1) as [Hp2 Hw2].
      destruct (AddTaskModal.onClose props (p1, w1)) as [r2 [p2 w2]].
      by destruct r2.
  - destruct (Hclose p w Hp Hw) as [Hp2 Hw2].
    unfold AddTaskModal.handleClose, mbind, Eff_bind, AddTaskModal.parent,
      AddTaskModal.setNewTaskTitle, setState.
    cbn [fst snd].
    destruct (AddTaskModal.onClose props (p, w)) as [r2 [p2 w2]]. done.
Qed.

End Sound.

Section Reachable.
Context `{Json} `{!JsonLaws} `{Utf16.Casing}.

Lemma sound_inTasks {A} (m : Eff TasksScreen.State A) a w :
  sound (a, w) → keeps tasksSound m → sound (inTasks m (a, w)).2.
Proof.
  intros (Ht & Htf & Hh & Hhf & Hw) Hm. destruct (Hm (onTasks a) w Ht Hw) as [Hs' Hw'].
  unfold inTasks, zoom. cbn [fst snd] in *.
  by destruct (m (onTasks a, w)) as [r [s' w']].
Qed.

Lemma sound_inHome {A} (m : Eff HomeScreen.State A) a w :
  sound (a, w) → keeps homeSound m → sound (inHome m (a, w)).2.
Proof.
  intros (Ht & Htf & Hh & Hhf & Hw) Hm. destruct (Hm (onHome a) w Hh Hw) as [Hs' Hw'].
  unfold inHome, zoom. cbn [fst snd] in *.
  by destruct (m (onHome a, w)) as [r [s' w']].
Qed.

Lemma sound_inTasksForm {A} (m : Eff (AddTaskModal.State * TasksScreen.State) A) a w :
  sound (a, w) → keeps (λ mp, formSound mp.1 ∧ tasksSound mp.2) m →
  sound (inTasksForm m (a, w)).2.
Proof.
  intros (Ht & Htf & Hh & Hhf & Hw) Hm.
  destruct (Hm (tasksForm a, onTasks a) w (conj Htf Ht) Hw) as [[Hm' Hs'] Hw'].
  unfold inTasksForm, zoom. cbn [fst snd] in *.
  by destruct (m (tasksForm a, onTasks a, w)) as [r [[m' s'] w']].
Qed.

Lemma sound_inHomeForm {A} (m : Eff (AddTaskModal.State * HomeScreen.State) A) a w :
  sound (a, w) → keeps (λ mp, formSound mp.1 ∧ homeSound mp.2) m →
  sound (inHomeForm m (a, w)).2.
Proof.
  intros (Ht & Htf & Hh & Hhf & Hw) Hm.
  destruct (Hm (homeForm a, onHome a) w (conj Hhf Hh) Hw) as [[Hm' Hs'] Hw'].
  unfold inHomeForm, zoom. cbn [fst snd] in *.
  by destruct (m (homeForm a, onHome a, w)) as [r [[m' s'] w']].
Qed.

(** Every event keeps the application sound. *)
Lemma handle_sound (e : event) (σ : App * World) : sound σ → sound (handle e σ).2.
Proof.
  destruct σ as [a w]. intros Hσ.
  unfold handle, mbind at 1, Eff_bind at 1, getState. cbn [fst snd].
  destruct e as [rd | | i | i wr | i answer wr | clock wr e | rd | | text | i wr | clock wr e].
  - apply sound_inTasks; [done | apply keeps_loadTasks].
  - by apply sound_inTasks.
  - destruct (TasksScreen.CATEGORIES !! i) as [cat|] eqn:Hcat; [| done].
    apply sound_inTasks; [done |]. intros s w' [Hs _] Hw'.
    split; [| done]. split; [done |]. by eapply list_elem_of_lookup_2.
  - destruct (TasksScreen.filteredTasks (onTasks a) !! i) as [task|]; [| done].
    apply sound_inTasks; [done | apply keeps_TasksScreen_toggleTask].
  - destruct (TasksScreen.filteredTasks (onTasks a) !! i) as [task|]; [| done].
    apply sound_inTasks; [done | apply keeps_deleteTask].
  - apply sound_inTasksForm; [done |]. apply keeps_handleForm.
    + done.
    + intros entry chosen. apply keeps_TasksScreen_handleAddTask.
    + intros entry chosen [s w']. exists undefined.
      cbn [AddTaskModal.onAddTask TasksScreen_modal].
      rewrite TasksScreen_handleAddTask_eval. by destruct wr.
  - apply sound_inHome; [done | apply keeps_loadData].
  - by apply sound_inHome.
  - by apply sound_inHome.
  - destruct (HomeScreen.displayedTasks (onHome a) !! i) as [task|]; [| done].
    apply sound_inHome; [done | apply keeps_HomeScreen_toggleTask].
  - apply sound_inHomeForm; [done |]. apply keeps_handleForm.
    + done.
    + intros entry chosen. apply keeps_HomeScreen_handleAddTask.
    + intros entry chosen [h w']. exists undefined.
      cbn [AddTaskModal.onAddTask HomeScreen_modal].
      by rewrite HomeScreen_handleAddTask_eval.
Qed.

Lemma run_sound (es : list event) (σ : App * World) : sound σ → sound (run es σ).
Proof.
  revert σ. induction es as [|e es IH]; intros σ Hσ; [done |].
  cbn [run foldl]. apply IH. by apply handle_sound.
Qed.

Lemma installed_sound (p : os) : sound (installed p).
Proof.
  split; [| split; [| split; [| split]]].
  - split; [constructor | by apply (bool_decide_unpack _)].
  - by apply (bool_decide_unpack _).
  - constructor.
  - by apply (bool_decide_unpack _).
  - by left.
Qed.

End Reachable.

(** X21: whatever the user does from a fresh install -- any sequence of
    focus changes, presses and entries on the two screens and their
    forms, with storage writes and reads succeeding or failing along the
    way -- every task the screens hold and the blob stores has a title
    that is not blank and has no white space at either end, and one of
    the four categories of the form; the chip selected on the Tasks
    screen is one of its five, and the category selected in each form one
    of its four. *)
Theorem reachable_sound `{Json} `{!JsonLaws} `{Utf16.Casing} (p : os) (es : list event) :
  let σ := run es (installed p) in
  Forall wellFormed (TasksScreen.tasks (onTasks σ.1))
  ∧ Forall wellFormed (HomeScreen.tasks (onHome σ.1))
  ∧ TasksScreen.selectedCategory (onTasks σ.1) ∈ TasksScreen.CATEGORIES
  ∧ AddTaskModal.newTaskCategory (tasksForm σ.1) ∈ AddTaskModal.CATEGORIES
  ∧ AddTaskModal.newTaskCategory (homeForm σ.1) ∈ AddTaskModal.CATEGORIES
  ∧ (blob σ.2 = None ∨ ∃ ts, blob σ.2 = Some (JSON_stringify ts) ∧ Forall wellFormed ts).
Proof.
  intros σ. destruct (run_sound es (installed p) (installed_sound p))
    as ([Ht Hc] & Htf & Hh & Hhf & Hw).
  done.
Qed.

Lemma reachable_sound_witness :
  let σ := @run RefJson.json RefCasing.casing session (installed ios) in
  Forall wellFormed (TasksScreen.tasks (onTasks σ.1))
  ∧ Forall wellFormed (HomeScreen.tasks (onHome σ.1))
  ∧ TasksScreen.selectedCategory (onTasks σ.1) ∈ TasksScreen.CATEGORIES
  ∧ AddTaskModal.newTaskCategory (tasksForm σ.1) ∈ AddTaskModal.CATEGORIES
  ∧ AddTaskModal.newTaskCategory (homeForm σ.1) ∈ AddTaskModal.CATEGORIES
  ∧ (blob σ.2 = None
     ∨ ∃ ts, blob σ.2 = Some (RefJson.stringify ts) ∧ Forall wellFormed ts).
Proof. exact (@reachable_sound RefJson.json RefJson_laws RefCasing.casing ios session). Defined.

(** ** The rows and their buttons *)

Lemma filteredTasks_ids (s : TasksScreen.State) :
  NoDup (id <$> TasksScreen.tasks s) → NoDup (id <$> TasksScreen.filteredTasks s).
Proof.
  unfold TasksScreen.filteredTasks. case_bool_decide; [done |]. apply filter_ids.
Qed.

Lemma filteredTasks_filter (P : Task → Prop) `{∀ t, Decision (P t)} (ts : list Task)
    (c : string) (v : bool) :
  TasksScreen.filteredTasks (TasksScreen.mkState (filter P ts) c v)
  = filter P (TasksScreen.filteredTasks (TasksScreen.mkState ts c v)).
Proof.
  unfold TasksScreen.filteredTasks. cbn. case_bool_decide; [done |].
  rewrite !list_filter_filter. apply list_filter_iff. tauto.
Qed.

Lemma filter_unique_delete (t : Task) (i : nat) (ts : list Task) :
  NoDup (id <$> ts) → ts !! i = Some t →
  filter (λ task, id task ≠ id t) ts = delete i ts.
Proof.
  revert i. induction ts as [|t' ts IH]; intros i Hids Hi; [done |].
  cbn [fmap list_fmap] in Hids. apply NoDup_cons in Hids as [Hnew Hids].
  destruct i as [|i]; cbn in Hi.
  - injection Hi as ->. rewrite filter_cons_False by (by intros Hne; apply Hne).
    cbn. apply filter_all. intros t' Ht' Heq. apply Hnew.
    apply list_elem_of_fmap. by exists t'.
  - rewrite filter_cons_True.
    + cbn. f_equal. by apply IH.
    + intros Heq. apply Hnew. apply list_elem_of_fmap. exists t.
      split; [done | by eapply list_elem_of_lookup_2].
Qed.

Lemma toggled_match (t : Task) :
  toggled (id t) t = mkTask (id t) (title t) (negb (completed t)) (category t) (date t).
Proof. unfold toggled. by rewrite bool_decide_true. Qed.

Lemma handle_pressCheckOnTasks `{Json} `{Utf16.Casing} i wr task a w :
  TasksScreen.filteredTasks (onTasks a) !! i = Some task →
  (handle (pressCheckOnTasks i wr) (a, w)).2 =
  (mkApp (TasksScreen.toggleTask wr (id task) (onTasks a, w)).2.1
     (tasksForm a) (onHome a) (homeForm a),
   (TasksScreen.toggleTask wr (id task) (onTasks a, w)).2.2).
Proof.
  intros Hrow. unfold handle, mbind, Eff_bind, getState. cbn [fst snd]. rewrite Hrow.
  unfold inTasks, zoom. cbn [fst snd].
  by destruct (TasksScreen.toggleTask wr (id task) (onTasks a, w)) as [r [s' w']].
Qed.

Lemma handle_pressDelete `{Json} `{Utf16.Casing} i answer wr task a w :
  TasksScreen.filteredTasks (onTasks a) !! i = Some task →
  (handle (pressDelete i answer wr) (a, w)).2 =
  (mkApp (TasksScreen.deleteTask answer wr (id task) (onTasks a, w)).2.1
     (tasksForm a) (onHome a) (homeForm a),
   (TasksScreen.deleteTask answer wr (id task) (onTasks a, w)).2.2).
Proof.
  intros Hrow. unfold handle, mbind, Eff_bind, getState. cbn [fst snd]. rewrite Hrow.
  unfold inTasks, zoom. cbn [fst snd].
  by destruct (TasksScreen.deleteTask answer wr (id task) (onTasks a, w)) as [r [s' w']].
Qed.

(** X22: when identifiers are pairwise different, the check button of a
    row acts on that row alone: after the press (its write succeeding)
    the row shows the same task with [completed] flipped, every other row
    on display is as before, and the Home screen, not in focus, still
    holds what it held. *)
Theorem press_check_flips_row `{Json} `{Utf16.Casing} (i : nat) (task : Task) (a : App) (w : World) :
  NoDup (id <$> TasksScreen.tasks (onTasks a)) →
  TasksScreen.filteredTasks (onTasks a) !! i = Some task →
  let a' := (handle (pressCheckOnTasks i Resolves) (a, w)).2.1 in
  TasksScreen.filteredTasks (onTasks a') !! i
    = Some (mkTask (id task) (title task) (negb (completed task)) (category task) (date task))
  ∧ (∀ j, j ≠ i →
       TasksScreen.filteredTasks (onTasks a') !! j = TasksScreen.filteredTasks (onTasks a) !! j)
  ∧ onHome a' = onHome a.
Proof.
  intros Hids Hrow a'. subst a'.
  rewrite (handle_pressCheckOnTasks i Resolves task) by done.
  rewrite TasksScreen_toggleTask_eval. cbn [fst snd onTasks onHome].
  destruct (onTasks a) as [ts c v] eqn:Hs.
  cbn [TasksScreen.tasks TasksScreen.selectedCategory TasksScreen.isModalVisible] in *.
  rewrite filteredTasks_fmap_toggled.
  split; [| split; [| done]].
  - by rewrite list_lookup_fmap, Hrow, <- toggled_match.
  - intros j Hj. rewrite list_lookup_fmap.
    destruct (TasksScreen.filteredTasks _ !! j) as [t'|] eqn:Hrow'; [| done].
    cbn. f_equal. apply toggled_frame. intros Heq. apply Hj.
    apply (NoDup_lookup (id <$> TasksScreen.filteredTasks (TasksScreen.mkState ts c v))
             j i (id task)).
    + by apply filteredTasks_ids.
    + rewrite list_lookup_fmap, Hrow'. cbn. by rewrite Heq.
    + by rewrite list_lookup_fmap, Hrow.
Qed.

Lemma press_check_flips_row_witness :
  let a := mkApp (tasksScreen [report; milk]) AddTaskModal.initial HomeScreen.initial
             AddTaskModal.initial in
  let a' := (@handle RefJson.json RefCasing.casing (pressCheckOnTasks 1 Resolves) (a, device)).2.1 in
  TasksScreen.filteredTasks (onTasks a') !! 1
    = Some (mkTask (id milk) (title milk) (negb (completed milk)) (category milk) (date milk))
  ∧ (∀ j, j ≠ 1 →
       TasksScreen.filteredTasks (onTasks a') !! j = TasksScreen.filteredTasks (onTasks a) !! j)
  ∧ onHome a' = onHome a.
Proof.
  intros a a'.
  apply (@press_check_flips_row RefJson.json RefCasing.casing 1 milk a device).
  - by apply (bool_decide_unpack _).
  - reflexivity.
Defined.

(** X23: when identifiers are pairwise different, the delete button of a
    row, once confirmed and written, takes that row off the list on
    display and nothing else: the other rows keep their order. *)
Theorem press_delete_removes_row `{Json} `{Utf16.Casing} (i : nat) (task : Task) (a : App) (w : World) :
  NoDup (id <$> TasksScreen.tasks (onTasks a)) →
  TasksScreen.filteredTasks (onTasks a) !! i = Some task →
  let a' := (handle (pressDelete i true Resolves) (a, w)).2.1 in
  TasksScreen.filteredTasks (onTasks a') = delete i (TasksScreen.filteredTasks (onTasks a))
  ∧ length (TasksScreen.tasks (onTasks a')) + 1 = length (TasksScreen.tasks (onTasks a)).
Proof.
  intros Hids Hrow a'. subst a'.
  rewrite (handle_pressDelete i true Resolves task) by done.
  rewrite TasksScreen_deleteTask_confirmed, TasksScreen_saveTasks_resolves.
  cbn [fst snd onTasks].
  assert (task ∈ TasksScreen.tasks (onTasks a)) as Hin.
  { apply list_elem_of_lookup_2 in Hrow. revert Hrow. unfold TasksScreen.filteredTasks.
    case_bool_decide; [done |]. by intros [_ ?]%list_elem_of_filter. }
  split.
  - destruct (onTasks a) as [ts c v] eqn:Hs. cbn [TasksScreen.tasks TasksScreen.selectedCategory
      TasksScreen.isModalVisible] in *.
    rewrite filteredTasks_filter. apply filter_unique_delete; [| done].
    by apply (filteredTasks_ids (TasksScreen.mkState ts c v)).
  - cbn [TasksScreen.tasks]. by apply length_filter_unique.
Qed.

Lemma press_delete_removes_row_witness :
  let a := mkApp (tasksScreen [report; milk]) AddTaskModal.initial HomeScreen.initial
             AddTaskModal.initial in
  let a' := (@handle RefJson.json RefCasing.casing (pressDelete 0 true Resolves) (a, device)).2.1 in
  TasksScreen.filteredTasks (onTasks a') = delete 0 (TasksScreen.filteredTasks (onTasks a))
  ∧ length (TasksScreen.tasks (onTasks a')) + 1 = length (TasksScreen.tasks (onTasks a)).
Proof.
  intros a a'.
  apply (@press_delete_removes_row RefJson.json RefCasing.casing 0 report a device).
  - by apply (bool_decide_unpack _).
  - reflexivity.
Defined.
